(** * Data-Connectors: the connector base class

    A shallow embedding of [src/connectors/base_connectors.py]: the sliding
    window rate limiter, the retried request, the URL helpers, the two
    paginators and the two response helpers, followed by the properties the
    specification states about them.

    Conventions.
    - Python values decoded from a response body are the type [json]; a
      Python [dict] is a [gmap string json]; a Python [str] is the string
      of the bytes of its UTF-8 encoding.
    - Time is read from a clock whose readings are integers (the unit is
      the one of [rate_limit_period]); the clock never runs backwards and
      the time that passes between two statements is chosen by the
      environment ([latency]).
    - Effects (clock, sleeping, the limiter's list, the HTTP session, the
      object store holding the [params] mapping, the pages a generator has
      yielded) are threaded through the monad [M]; a Python exception is
      the outcome [Raise].
    - [logger] calls have no effect on any value and are left out. *)

From Stdlib Require Import ZArith List Lia Bool Ascii String Sorted.
From stdpp Require Import base option list gmap strings.

#[local] Set Warnings "-register-all".
#[local] Open Scope string_scope.
#[local] Open Scope list_scope.
#[local] Open Scope Z_scope.

(** ** Python values *)

Inductive json : Type :=
  | JNull
  | JBool (b : bool)
  | JNum (n : Z)
  | JStr (s : string)
  | JList (l : list json)
  | JDict (d : gmap string json).

Abbreviation dict := (gmap string json).

(** [bool(v)]: the truth value Python gives a decoded value. *)
Definition truthy (v : json) : bool :=
  match v with
  | JNull => false
  | JBool b => b
  | JNum n => negb (n =? 0)
  | JStr s => negb (String.length s =? 0)%nat
  | JList l => negb (length l =? 0)%nat
  | JDict d => negb (size d =? 0)%nat
  end.

(** [isinstance(v, list)] and [isinstance(v, dict)]. *)
Definition is_list (v : json) : bool :=
  match v with JList _ => true | _ => false end.

Definition is_dict (v : json) : bool :=
  match v with JDict _ => true | _ => false end.

(** The exceptions the module can meet; all of them derive from
    [Exception]. *)
Inductive Exn : Type :=
  | ValueError                 (* min() of an empty list *)
  | TypeError                  (* len() of a value without a length *)
  | JSONDecodeError            (* response.json() on an undecodable body *)
  | ConnectionError (id : Z)   (* requests: transport failure, time-out *)
  | HTTPError (status : Z).    (* requests: raise_for_status() *)

(** The class [requests.RequestException]. *)
Definition RequestException (e : Exn) : bool :=
  match e with
  | ConnectionError _ | HTTPError _ | JSONDecodeError => true
  | ValueError | TypeError => false
  end.

Inductive result (A : Type) : Type :=
  | Ok (a : A)
  | Raise (e : Exn).
Arguments Ok {A} a.
Arguments Raise {A} e.

(** ** Configuration *)

Record ConnectorConfig : Type := mkConfig {
  base_url : string;
  api_key : option string;
  rate_limit_calls : Z;
  rate_limit_period : Z;
  max_retries : Z;
  timeout : Z
}.

(** The defaults of the pydantic model. *)
Definition default_config (url : string) : ConnectorConfig :=
  {| base_url := url; api_key := None; rate_limit_calls := 60;
     rate_limit_period := 60; max_retries := 3; timeout := 30 |}.

(** [config.copy(update={'max_retries': m})]. *)
Definition with_max_retries (config : ConnectorConfig) (m : Z)
    : ConnectorConfig :=
  mkConfig (base_url config) (api_key config) (rate_limit_calls config)
    (rate_limit_period config) m (timeout config).

(** ** The HTTP boundary *)

Record Request : Type := mkRequest {
  req_method : string;
  req_url : string;
  req_params : option dict;   (* the [params] keyword, as sent *)
  req_timeout : Z
}.

Record Response : Type := mkResponse {
  status_code : Z;
  body : option json          (* [None]: the body is not JSON *)
}.

(** ** The world a connector runs in *)

Abbreviation loc := positive.

Record World (B : Type) : Type := mkWorld {
  clock : Z;                      (* current time *)
  latency : list nat;             (* time passing before each coming reading *)
  _rate_limit_calls : list Z;     (* self._rate_limit_calls *)
  sleeps : list Z;                (* arguments of time.sleep, oldest first *)
  backend : B;                    (* the remote service *)
  sent : list Request;            (* requests issued, oldest first *)
  heap : gmap loc dict;           (* the mapping objects, by reference *)
  yielded : list json             (* pages yielded, oldest first *)
}.
Arguments mkWorld {B}.
Arguments clock {B}.
Arguments latency {B}.
Arguments _rate_limit_calls {B}.
Arguments sleeps {B}.
Arguments backend {B}.
Arguments sent {B}.
Arguments heap {B}.
Arguments yielded {B}.

(** [__init__]: a fresh connector has made no call yet. *)
Definition init_world {B : Type} (now : Z) (lat : list nat) (b : B)
    (h : gmap loc dict) : World B :=
  mkWorld now lat [] [] b [] h [].

Definition M (B A : Type) : Type := World B → result A * World B.

Definition ret {B A : Type} (a : A) : M B A := λ w, (Ok a, w).

Definition bind {B A C : Type} (m : M B A) (k : A → M B C) : M B C :=
  λ w, match m w with
       | (Ok a, w') => k a w'
       | (Raise e, w') => (Raise e, w')
       end.

Definition raise {B A : Type} (e : Exn) : M B A := λ w, (Raise e, w).

(** [try: body  except cls as e: handler(e)]; an exception outside [cls]
    passes through. *)
Definition try_except {B A : Type} (m : M B A) (cls : Exn → bool)
    (handler : Exn → M B A) : M B A :=
  λ w, match m w with
       | (Ok a, w') => (Ok a, w')
       | (Raise e, w') => if cls e then handler e w' else (Raise e, w')
       end.

(** The class [Exception] holds every exception of [Exn]. *)
Definition Exception (e : Exn) : bool := true.

#[global] Instance M_ret {B : Type} : MRet (M B) := λ A, @ret B A.
#[global] Instance M_bind {B : Type} : MBind (M B) := λ A C k m, bind m k.

Section World_ops.
Context {B : Type}.

(** [time.time()]: some time passes, then the clock is read. *)
Definition time_time : M B Z :=
  λ w, let d := Z.of_nat (hd 0%nat (latency w)) in
       let t := clock w + d in
       (Ok t, mkWorld t (tl (latency w)) (_rate_limit_calls w) (sleeps w)
                      (backend w) (sent w) (heap w) (yielded w)).

(** [time.sleep(d)], called with [d > 0] only. *)
Definition time_sleep (d : Z) : M B unit :=
  λ w, (Ok tt, mkWorld (clock w + d) (latency w) (_rate_limit_calls w)
                       (sleeps w ++ [d]) (backend w) (sent w) (heap w)
                       (yielded w)).

Definition get_calls : M B (list Z) := λ w, (Ok (_rate_limit_calls w), w).

Definition set_calls (l : list Z) : M B unit :=
  λ w, (Ok tt, mkWorld (clock w) (latency w) l (sleeps w) (backend w)
                       (sent w) (heap w) (yielded w)).

(** [yield page]. *)
Definition yield_ (page : json) : M B unit :=
  λ w, (Ok tt, mkWorld (clock w) (latency w) (_rate_limit_calls w)
                       (sleeps w) (backend w) (sent w) (heap w)
                       (yielded w ++ [page])).

(** Contents of the mapping object at [l]. *)
Definition deref (l : loc) : M B dict :=
  λ w, (Ok (default ∅ (heap w !! l)), w).

Definition store (l : loc) (d : dict) : M B unit :=
  λ w, (Ok tt, mkWorld (clock w) (latency w) (_rate_limit_calls w)
                       (sleeps w) (backend w) (sent w) (<[l := d]> (heap w))
                       (yielded w)).

(** [{}]: a new, empty mapping object. *)
Definition alloc_empty : M B loc :=
  λ w, let l := fresh (dom (heap w)) in
       (Ok l, mkWorld (clock w) (latency w) (_rate_limit_calls w)
                      (sleeps w) (backend w) (sent w) (<[l := ∅]> (heap w))
                      (yielded w)).
End World_ops.

(** ** Rate limiting *)

(** [min(l)]; Python raises [ValueError] on an empty list. *)
Definition py_min (l : list Z) : option Z :=
  match l with
  | [] => None
  | x :: xs => Some (fold_right Z.min x xs)
  end.

Section Connector.
Context {B : Type}.
(** The remote service: answers a request with a response or a
    transport failure, and moves to a new state. *)
Variable serve : B → Request → result Response * B.
Variable config : ConnectorConfig.

Definition _rate_limit_check : M B unit :=
  now ← time_time;
  calls0 ← get_calls;
  let calls :=
    filter (λ call_time, now - call_time < rate_limit_period config) calls0 in
  set_calls calls;;
  (if bool_decide (rate_limit_calls config ≤ Z.of_nat (length calls)) then
     match py_min calls with
     | None => raise ValueError
     | Some oldest_call =>
         let sleep_time := rate_limit_period config - (now - oldest_call) in
         if bool_decide (0 < sleep_time) then time_sleep sleep_time
         else mret tt
     end
   else mret tt);;
  t ← time_time;
  calls1 ← get_calls;
  set_calls (calls1 ++ [t]).

(** *** Retrying (tenacity) *)

(** [wait_exponential(multiplier, min, max)] at a failed attempt. *)
Definition wait_exponential (multiplier min_ max_ : Z)
    (attempt_number : Z) : Z :=
  let exp := 2 ^ (attempt_number - 1) in
  let result := multiplier * exp in
  Z.max (Z.max 0 min_) (Z.min result max_).

(** The loop of [@retry(stop, wait, reraise=True)]: [remaining] further
    attempts are allowed after the one numbered [attempt_number]. *)
Fixpoint retrying {A : Type} (wait : Z → Z) (fn : M B A)
    (remaining : nat) (attempt_number : Z) : M B A :=
  try_except fn Exception (λ e,
    match remaining with
    | O => raise e
    | S r =>
        time_sleep (wait attempt_number);;
        retrying wait fn r (attempt_number + 1)
    end).

(** [stop_after_attempt(n)]: the first attempt is always made. *)
Definition retry {A : Type} (stop_after_attempt : nat) (wait : Z → Z)
    (fn : M B A) : M B A :=
  retrying wait fn (stop_after_attempt - 1) 1.

(** *** The session *)

Definition session_request (r : Request) : M B Response :=
  λ w, let '(o, b) := serve (backend w) r in
       (o, mkWorld (clock w) (latency w) (_rate_limit_calls w) (sleeps w)
                   b (sent w ++ [r]) (heap w) (yielded w)).

Definition raise_for_status (response : Response) : M B unit :=
  if bool_decide (400 ≤ status_code response < 600)
  then raise (HTTPError (status_code response))
  else mret tt.

Definition response_json (response : Response) : M B json :=
  match body response with
  | Some v => mret v
  | None => raise JSONDecodeError
  end.

(** The body of [_make_request], one attempt. *)
Definition _make_request_attempt (method url : string)
    (params : option dict) : M B Response :=
  _rate_limit_check;;
  try_except
    (response ← session_request
       (mkRequest method url params (timeout config));
     raise_for_status response;;
     mret response)
    RequestException
    (λ e, raise e).

Definition _make_request (method url : string) (params : option dict)
    : M B Response :=
  retry 3 (wait_exponential 1 2 10)
    (_make_request_attempt method url params).

(** *** [get] and [post] *)

Definition mem_char (c : ascii) (chars : string) : bool :=
  existsb (Ascii.eqb c) (list_ascii_of_string chars).

(** [s.lstrip(chars)]. *)
Fixpoint lstrip (chars : string) (s : string) : string :=
  match s with
  | EmptyString => EmptyString
  | String c rest => if mem_char c chars then lstrip chars rest else s
  end.

Definition build_url (endpoint : string) : string :=
  (base_url config ++ "/" ++ lstrip "/" endpoint)%string.

Definition get (endpoint : string) (params : option dict) : M B json :=
  let url := build_url endpoint in
  response ← _make_request "GET" url params;
  response_json response.

Definition post (endpoint : string) (params : option dict) : M B json :=
  let url := build_url endpoint in
  response ← _make_request "POST" url params;
  response_json response.

(** *** Response helpers *)

Definition _extract_records_from_response (data : json) : json :=
  match data with
  | JList _ => data
  | JDict d =>
      match d !! "data" with
      | Some v => v
      | None =>
          match d !! "results" with
          | Some v => v
          | None =>
              match d !! "items" with
              | Some v => v
              | None => JList [data]
              end
          end
      end
  | _ => JList [data]
  end.

(** [s.split(sep)] for a one-character separator. *)
Fixpoint split (sep : ascii) (s : string) : list string :=
  match s with
  | EmptyString => [EmptyString]
  | String c rest =>
      if Ascii.eqb c sep then EmptyString :: split sep rest
      else match split sep rest with
           | seg :: segs => String c seg :: segs
           | [] => [String c EmptyString]
           end
  end.

(** The [for key in keys] loop of [_get_nested_value]; [d.get(key)] of a
    missing key is [None]. *)
Fixpoint walk_keys (value : json) (keys : list string) : json :=
  match keys with
  | [] => value
  | key :: keys' =>
      match value with
      | JDict d => walk_keys (default JNull (d !! key)) keys'
      | _ => JNull
      end
  end.

Definition _get_nested_value (data : json) (path : string) : json :=
  let keys := split "." path in
  walk_keys data keys.

(** A [JStr] holds the UTF-8 encoding of the Python string.  A byte
    [10xxxxxx] continues a character; every other byte starts one. *)
Definition continuation_byte (c : ascii) : bool :=
  match c with
  | Ascii _ _ _ _ _ _ b6 b7 => b7 && negb b6
  end.

(** [len(s)] of a string: its number of characters (code points). *)
Fixpoint str_len (s : string) : nat :=
  match s with
  | EmptyString => O
  | String c rest =>
      if continuation_byte c then str_len rest else S (str_len rest)
  end.

(** The length of a value that has one. *)
Definition sized (v : json) : option Z :=
  match v with
  | JList l => Some (Z.of_nat (length l))
  | JDict d => Some (Z.of_nat (size d))
  | JStr s => Some (Z.of_nat (str_len s))
  | _ => None
  end.

(** [len(v)]. *)
Definition py_len (v : json) : M B Z :=
  match sized v with
  | Some n => mret n
  | None => raise TypeError
  end.

(** *** Pagination *)

(** What one pass through a [while True] body decides. *)
Inductive ctl (S : Type) : Type :=
  | Break
  | Continue (s : S).
Arguments Break {S}.
Arguments Continue {S} s.

(** [max_pages and page >= max_pages]. *)
Definition max_pages_reached (max_pages : option Z) (page : Z) : bool :=
  match max_pages with
  | None => false
  | Some m => negb (m =? 0) && bool_decide (m ≤ page)
  end.

(** [kwargs.get('params', {})]: the caller's object when one was passed,
    a new empty one otherwise. *)
Definition kwargs_get_params (kwargs : option loc) : M B loc :=
  match kwargs with
  | Some l => mret l
  | None => alloc_empty
  end.

(** [params.update({'limit': limit, 'offset': offset})]. *)
Definition update_limit_offset (params : loc) (limit offset : Z)
    : M B unit :=
  d ← deref params;
  store params (<["offset" := JNum offset]> (<["limit" := JNum limit]> d)).

(** Locals of [paginate_offset] that live across iterations:
    [offset], [page] and [kwargs['params']]. *)
Record offset_state : Type := mkOffset {
  os_offset : Z;
  os_page : Z;
  os_kwargs : option loc
}.

(** The lines before the [try]: [params = kwargs.get('params', {})],
    [params.update(...)], [kwargs['params'] = params]. *)
Definition offset_prepare (limit : Z) (st : offset_state) : M B loc :=
  params ← kwargs_get_params (os_kwargs st);
  update_limit_offset params limit (os_offset st);;
  mret params.

(** [self.get(endpoint, **kwargs)], [kwargs['params']] being the object
    at [params]. *)
Definition fetch (endpoint : string) (params : loc) : M B json :=
  sent_params ← deref params;
  get endpoint (Some sent_params).

(** The rest of the [try] block of [paginate_offset]. *)
Definition offset_page (limit : Z) (st : offset_state) (params : loc)
    (data : json) : M B (ctl offset_state) :=
  let records := _extract_records_from_response data in
  if negb (truthy records) then mret Break
  else
    yield_ records;;
    n ← py_len records;
    if bool_decide (n < limit) then mret Break
    else mret (Continue (mkOffset (os_offset st + limit) (os_page st + 1)
                                  (Some params))).

(** One iteration of the loop of [paginate_offset]. *)
Definition paginate_offset_step (endpoint : string) (limit : Z)
    (max_pages : option Z) (st : offset_state) : M B (ctl offset_state) :=
  if max_pages_reached max_pages (os_page st) then mret Break
  else
    params ← offset_prepare limit st;
    try_except
      (data ← fetch endpoint params;
       offset_page limit st params data)
      Exception
      (λ e, mret Break).

(** The generator driven for at most [fuel] iterations; [true] when it
    is exhausted, [false] when it could still be resumed. *)
Fixpoint paginate_offset_loop (fuel : nat) (endpoint : string) (limit : Z)
    (max_pages : option Z) (st : offset_state) : M B bool :=
  match fuel with
  | O => mret false
  | S fuel' =>
      c ← paginate_offset_step endpoint limit max_pages st;
      match c with
      | Break => mret true
      | Continue st' =>
          paginate_offset_loop fuel' endpoint limit max_pages st'
      end
  end.

Definition paginate_offset (fuel : nat) (endpoint : string) (limit : Z)
    (max_pages : option Z) (kwargs : option loc) : M B bool :=
  paginate_offset_loop fuel endpoint limit max_pages (mkOffset 0 0 kwargs).

(** [params[cursor_param] = cursor]. *)
Definition set_item (params : loc) (key : string) (v : json) : M B unit :=
  d ← deref params;
  store params (<[key := v]> d).

(** Locals of [paginate_cursor] that live across iterations:
    [cursor] ([None] is [JNull]), [page] and [kwargs['params']]. *)
Record cursor_state : Type := mkCursor {
  cs_cursor : json;
  cs_page : Z;
  cs_kwargs : option loc
}.

(** The lines before the [try]: [params = kwargs.get('params', {})],
    [if cursor: params[cursor_param] = cursor],
    [kwargs['params'] = params]. *)
Definition cursor_prepare (cursor_param : string) (st : cursor_state)
    : M B loc :=
  params ← kwargs_get_params (cs_kwargs st);
  (if truthy (cs_cursor st)
   then set_item params cursor_param (cs_cursor st)
   else mret tt);;
  mret params.

(** The rest of the [try] block of [paginate_cursor]. *)
Definition cursor_page (cursor_path : string) (st : cursor_state)
    (params : loc) (data : json) : M B (ctl cursor_state) :=
  let records := _extract_records_from_response data in
  if negb (truthy records) then mret Break
  else
    yield_ records;;
    let cursor := _get_nested_value data cursor_path in
    if negb (truthy cursor) then mret Break
    else mret (Continue (mkCursor cursor (cs_page st + 1) (Some params))).

(** One iteration of the loop of [paginate_cursor]. *)
Definition paginate_cursor_step (endpoint cursor_param cursor_path : string)
    (max_pages : option Z) (st : cursor_state) : M B (ctl cursor_state) :=
  if max_pages_reached max_pages (cs_page st) then mret Break
  else
    params ← cursor_prepare cursor_param st;
    try_except
      (data ← fetch endpoint params;
       cursor_page cursor_path st params data)
      Exception
      (λ e, mret Break).

Fixpoint paginate_cursor_loop (fuel : nat)
    (endpoint cursor_param cursor_path : string) (max_pages : option Z)
    (st : cursor_state) : M B bool :=
  match fuel with
  | O => mret false
  | S fuel' =>
      c ← paginate_cursor_step endpoint cursor_param cursor_path
            max_pages st;
      match c with
      | Break => mret true
      | Continue st' =>
          paginate_cursor_loop fuel' endpoint cursor_param cursor_path
            max_pages st'
      end
  end.

Definition paginate_cursor (fuel : nat)
    (endpoint cursor_param cursor_path : string) (max_pages : option Z)
    (kwargs : option loc) : M B bool :=
  paginate_cursor_loop fuel endpoint cursor_param cursor_path max_pages
    (mkCursor JNull 0 kwargs).

End Connector.

Arguments Break {S}.
Arguments Continue {S} s.

(** ** Runs of the limiter *)

Section Limiter_runs.
Context {B : Type}.
Variable config : ConnectorConfig.

(** [n] calls of [_rate_limit_check] one after the other; the result
    lists the timestamp each call recorded, oldest first. *)
Fixpoint admit_many (n : nat) : M B (list Z) :=
  match n with
  | O => mret []
  | S n' =>
      _rate_limit_check config;;
      calls ← get_calls;
      ts ← admit_many n';
      mret (default 0 (last calls) :: ts)
  end.

(** Timestamps of [ts] inside the window [(x, x + rate_limit_period]],
    the one the pruning test [now - call_time < rate_limit_period]
    keeps when [now = x + rate_limit_period]. *)
Definition in_window (x : Z) (ts : list Z) : list Z :=
  filter (λ t, x < t ≤ x + rate_limit_period config) ts.

(** What a run of calls keeps true: [hist] are the timestamps recorded
    so far, none is in the future, the limiter's list still holds every
    one of them that is younger than a full period, holds at most the
    quota of such, and no window has been overfilled. *)
Definition limiter_inv (hist : list Z) (w : World B) : Prop :=
  Forall (λ t, t ≤ clock w) hist
  ∧ (∀ x, clock w ≤ x + rate_limit_period config →
       filter (λ t, x < t) hist = filter (λ t, x < t) (_rate_limit_calls w))
  ∧ Z.of_nat (length (filter (λ t, clock w - rate_limit_period config < t)
                        (_rate_limit_calls w))) ≤ rate_limit_calls config
  ∧ ∀ x, Z.of_nat (length (in_window x hist)) ≤ rate_limit_calls config.
End Limiter_runs.

(** ** What a request leaves alone *)

(** Between [w] and [w'] exactly [n] requests went out, all equal to
    [rq]; no mapping object was touched and no page was yielded. *)
Definition sends {B : Type} (rq : Request) (n : nat) (w w' : World B)
    : Prop :=
  heap w' = heap w
  ∧ yielded w' = yielded w
  ∧ sent w' = sent w ++ replicate n rq.

(** ** Notions the specification uses *)

(** [sep.join(segs)] for a one-character separator. *)
Fixpoint join_with (sep : ascii) (segs : list string) : string :=
  match segs with
  | [] => EmptyString
  | [seg] => seg
  | seg :: segs' => (seg ++ String sep (join_with sep segs'))%string
  end.

(** [s.rstrip(chars)]. *)
Fixpoint rstrip (chars : string) (s : string) : string :=
  match s with
  | EmptyString => EmptyString
  | String c rest =>
      match rstrip chars rest with
      | EmptyString => if mem_char c chars then EmptyString
                       else String c EmptyString
      | r => String c r
      end
  end.

Definition starts_with_slash (s : string) : bool :=
  match s with
  | String c _ => Ascii.eqb c "/"
  | EmptyString => false
  end.

Fixpoint ends_with_slash (s : string) : bool :=
  match s with
  | EmptyString => false
  | String c EmptyString => Ascii.eqb c "/"
  | String _ rest => ends_with_slash rest
  end.

(** The string of [k] slashes. *)
Fixpoint slashes (k : nat) : string :=
  match k with
  | O => EmptyString
  | S k' => String "/" (slashes k')
  end.

(** In the words of the specification: [url] is [base] and [endpoint]
    joined by a single ["/"], whatever slashes end the first or start the
    second. *)
Definition joined_by_one_slash (base endpoint url : string) : Prop :=
  url = (rstrip "/" base ++ "/" ++ lstrip "/" endpoint)%string.

(** In the words of the specification: the request carries no cursor
    parameter. *)
Definition no_cursor_parameter (cursor_param : string) (rq : Request)
    : Prop :=
  ∀ p : dict, req_params rq = Some p → p !! cursor_param = None.

(** In the words of the specification: the offset paginator is done when
    [max_pages] is set and reached, or the fetch gave an empty record
    sequence, or it gave fewer than [limit] records. *)
Definition offset_stop_condition (limit : Z) (max_pages : option Z)
    (page : Z) (fetched : result json) : Prop :=
  max_pages_reached max_pages page = true
  ∨ ∃ data, fetched = Ok data
      ∧ (truthy (_extract_records_from_response data) = false
         ∨ ∃ n, sized (_extract_records_from_response data) = Some n
                ∧ n < limit).

(** ** Services used in the examples *)

(** A service that replays a fixed list of outcomes, one per request, and
    refuses the connection once the list is used up. *)
Definition serve_script (b : list (result Response)) (r : Request)
    : result Response * list (result Response) :=
  match b with
  | [] => (Raise (ConnectionError 0), [])
  | o :: b' => (o, b')
  end.

Definition ok_json (v : json) : result Response :=
  Ok (mkResponse 200 (Some v)).

(** [n] records [{"id": 0}], [{"id": 1}], ... *)
Definition records_from (start : Z) (n : nat) : list json :=
  map (λ i, JDict {[ "id" := JNum (start + Z.of_nat i) ]}) (seq 0 n).

(** A stateless service holding [items], which answers a request carrying
    [limit] and [offset] with [{"data": items[offset:offset+limit]}]. *)
Definition serve_slice (items : list json) (b : unit) (r : Request)
    : result Response * unit :=
  match req_params r with
  | Some p =>
      match p !! "limit", p !! "offset" with
      | Some (JNum limit), Some (JNum offset) =>
          (ok_json (JDict {[ "data" :=
             JList (take (Z.to_nat limit) (drop (Z.to_nat offset) items)) ]}),
           tt)
      | _, _ => (Ok (mkResponse 400 None), tt)
      end
  | None => (Ok (mkResponse 400 None), tt)
  end.

(** ** Notions used by the further properties *)

(** The exception an attempt of [_make_request] ends with when the
    service's answer to it is [o]: a failure of [session.request] as it
    is, an error status as the [HTTPError] of [raise_for_status]; [None]
    when the attempt returns the response. *)
Definition attempt_error (o : result Response) : option Exn :=
  match o with
  | Raise e => Some e
  | Ok response =>
      if bool_decide (400 ≤ status_code response < 600)
      then Some (HTTPError (status_code response))
      else None
  end.

(** The records of the pages in [pages], in order. *)
Definition all_records (pages : list json) : list json :=
  concat (map (λ page, match page with JList l => l | _ => [] end) pages).


(** * Properties *)

(** ** The rate limiter *)

Section Limiter_proofs.
Context {B : Type} (config : ConnectorConfig).

Lemma py_min_lower (l : list Z) (m : Z) :
  py_min l = Some m → m ∈ l ∧ Forall (λ t, m ≤ t) l.
Proof.
  destruct l as [|x xs]; simpl; [discriminate|].
  intros [= <-]. induction xs as [|y ys IH]; simpl.
  - split; [left|]. constructor; [lia|constructor].
  - destruct IH as [Hin Hall].
    apply Forall_cons in Hall as [Hx Hall].
    split.
    + destruct (Z.min_spec y (fold_right Z.min x ys)) as [[_ ->]|[_ ->]].
      * right; left.
      * apply elem_of_cons in Hin as [->|Hin]; [left|right; right; exact Hin].
    + constructor; [lia|]. constructor; [lia|].
      eapply Forall_impl; [exact Hall|]. simpl. intros; lia.
Qed.

Lemma rate_limit_check_step (w : World B) :
  1 ≤ rate_limit_calls config →
  let now := clock w + Z.of_nat (hd 0%nat (latency w)) in
  let kept := filter (λ c, now - c < rate_limit_period config)
                (_rate_limit_calls w) in
  ∃ w', _rate_limit_check config w = (Ok tt, w')
    ∧ _rate_limit_calls w' = kept ++ [clock w']
    ∧ now ≤ clock w'
    ∧ (rate_limit_calls config ≤ Z.of_nat (length kept) →
         ∃ oldest, py_min kept = Some oldest
           ∧ oldest + rate_limit_period config ≤ clock w'
           ∧ sleeps w' = sleeps w
               ++ [rate_limit_period config - (now - oldest)])
    ∧ (Z.of_nat (length kept) < rate_limit_calls config →
         sleeps w' = sleeps w)
    ∧ backend w' = backend w ∧ sent w' = sent w ∧ heap w' = heap w
    ∧ yielded w' = yielded w.
Proof.
  intros Hq now kept.
  unfold _rate_limit_check, mbind, M_bind, bind, time_time, get_calls,
    set_calls. simpl. fold now. fold kept.
  case_bool_decide as Hfull.
  - destruct (py_min kept) as [oldest|] eqn:Hmin.
    + destruct (py_min_lower _ _ Hmin) as [Hin _].
      apply list_elem_of_filter in Hin as [Hyoung _].
      rewrite bool_decide_eq_true_2 by lia.
      unfold time_sleep. simpl.
      eexists. split; [reflexivity|]. simpl.
      repeat split; try lia.
      * intros _. exists oldest. repeat split; lia.
    + destruct kept; [simpl in Hfull; lia|discriminate].
  - unfold mret, M_ret, ret. simpl.
    eexists. split; [reflexivity|]. simpl.
    repeat split; try lia.
Qed.

Lemma filter_ext_elem (P Q : Z → Prop) `{!∀ x, Decision (P x)}
    `{!∀ x, Decision (Q x)} (l : list Z) :
  (∀ x, x ∈ l → (P x ↔ Q x)) → filter P l = filter Q l.
Proof.
  induction l as [|a l IH]; intros Hext; [reflexivity|].
  rewrite !filter_cons.
  rewrite IH by (intros x Hx; apply Hext; right; exact Hx).
  destruct (decide (P a)) as [Hp|Hp], (decide (Q a)) as [Hq|Hq];
    try reflexivity; exfalso.
  - apply Hq, Hext; [left|exact Hp].
  - apply Hp, Hext; [left|exact Hq].
Qed.

Lemma length_filter_mono (P Q : Z → Prop) `{!∀ x, Decision (P x)}
    `{!∀ x, Decision (Q x)} (l : list Z) :
  (∀ x, P x → Q x) → (length (filter P l) ≤ length (filter Q l))%nat.
Proof.
  intros Himp. rewrite <- (list_filter_filter_l P Q l Himp).
  apply length_filter.
Qed.

Lemma limiter_inv_init (now : Z) (lat : list nat) (b : B)
    (h : gmap loc dict) :
  1 ≤ rate_limit_calls config →
  limiter_inv config [] (init_world now lat b h).
Proof.
  intros Hq. unfold limiter_inv, in_window; simpl.
  repeat split; try constructor; intros; simpl; lia.
Qed.

Lemma limiter_inv_step (hist : list Z) (w : World B) :
  1 ≤ rate_limit_calls config →
  0 < rate_limit_period config →
  limiter_inv config hist w →
  ∃ w', _rate_limit_check config w = (Ok tt, w')
    ∧ last (_rate_limit_calls w') = Some (clock w')
    ∧ limiter_inv config (hist ++ [clock w']) w'.
Proof.
  intros Hq Hp (Hpast & Hsync & Hcur & Hwin).
  destruct (rate_limit_check_step w Hq)
    as (w' & Hrun & Hcalls & Hnow & Hfull & _).
  set (now := clock w + Z.of_nat (hd 0%nat (latency w))) in *.
  set (kept := filter (λ c, now - c < rate_limit_period config)
                 (_rate_limit_calls w)) in *.
  assert (Hclk : clock w ≤ now) by (unfold now; lia).
  exists w'. split; [exact Hrun|]. split.
  { rewrite Hcalls. apply last_snoc. }
  assert (Hkept_le : Z.of_nat (length kept) ≤ rate_limit_calls config).
  { etransitivity; [|exact Hcur]. apply inj_le.
    apply length_filter_mono. intros; lia. }
  assert (Hsync' : ∀ x, clock w' ≤ x + rate_limit_period config →
    filter (λ t, x < t) (hist ++ [clock w'])
    = filter (λ t, x < t) (_rate_limit_calls w')).
  { intros x Hx. rewrite Hcalls, !filter_app. f_equal.
    rewrite Hsync by lia. unfold kept.
    symmetry. apply list_filter_filter_l. intros; lia. }
  assert (Hcur' : Z.of_nat (length
      (filter (λ t, clock w' - rate_limit_period config < t)
         (_rate_limit_calls w'))) ≤ rate_limit_calls config).
  { rewrite Hcalls, filter_app, length_app.
    rewrite (filter_cons_True _ (clock w')) by lia. simpl.
    destruct (decide (rate_limit_calls config ≤ Z.of_nat (length kept)))
      as [Hge|Hlt].
    - destruct (Hfull Hge) as (oldest & Hmin & Hold & _).
      destruct (py_min_lower _ _ Hmin) as [Hin _].
      pose proof (length_filter_lt
        (λ t, clock w' - rate_limit_period config < t) kept oldest Hin)
        as Hlt.
      assert (¬ clock w' - rate_limit_period config < oldest) as Hn by lia.
      specialize (Hlt Hn). lia.
    - pose proof (length_filter
        (λ t, clock w' - rate_limit_period config < t) kept). lia. }
  repeat split.
  - apply Forall_app. split.
    + eapply Forall_impl; [exact Hpast|]. simpl. intros; lia.
    + constructor; [lia|constructor].
  - exact Hsync'.
  - exact Hcur'.
  - intros x. unfold in_window.
    destruct (decide (x < clock w' ≤ x + rate_limit_period config))
      as [Hin|Hout].
    + rewrite (filter_ext_elem _ (λ t, x < t)).
      * rewrite Hsync' by lia.
        etransitivity; [|exact Hcur']. apply inj_le.
        apply length_filter_mono. intros; lia.
      * intros t Ht. apply elem_of_app in Ht as [Ht|Ht].
        -- rewrite Forall_forall in Hpast. specialize (Hpast t Ht). lia.
        -- apply list_elem_of_singleton in Ht as ->. lia.
    + rewrite filter_app, (filter_cons_False _ (clock w')) by exact Hout.
      rewrite filter_nil, app_nil_r. apply Hwin.
Qed.

Lemma admit_many_inv (n : nat) : ∀ (hist : list Z) (w : World B),
  1 ≤ rate_limit_calls config →
  0 < rate_limit_period config →
  limiter_inv config hist w →
  ∃ ts w', admit_many config n w = (Ok ts, w')
    ∧ length ts = n
    ∧ limiter_inv config (hist ++ ts) w'.
Proof.
  induction n as [|n IH]; intros hist w Hq Hp Hinv.
  - exists [], w. rewrite app_nil_r.
    split; [reflexivity|]. split; [reflexivity|exact Hinv].
  - destruct (limiter_inv_step hist w Hq Hp Hinv)
      as (w1 & Hrun & Hlast & Hinv1).
    destruct (IH _ w1 Hq Hp Hinv1) as (ts & w2 & Hrest & Hlen & Hinv2).
    exists (clock w1 :: ts), w2. split; [|split].
    + simpl. unfold mbind, M_bind, bind. rewrite Hrun.
      unfold get_calls. simpl. rewrite Hrest, Hlast. reflexivity.
    + simpl. congruence.
    + rewrite <- app_assoc in Hinv2. exact Hinv2.
Qed.
End Limiter_proofs.

(** C1.  With a quota of at least one call and a positive period, calling
    [_rate_limit_check] any number of times on a fresh connector never
    raises, and no window of the length of the period, open at its old end
    as the pruning test has it, holds more recorded timestamps than the
    quota.  Each single call, in any state, returns normally, keeps
    exactly the timestamps younger than a period, sleeps (for the time
    the oldest kept call still needs to leave the window) when and only
    when the kept ones have reached the quota, and then appends one
    timestamp: the clock read after the sleep. *)
Theorem rate_limit_sliding_window {B : Type} (config : ConnectorConfig) :
  1 ≤ rate_limit_calls config →
  0 < rate_limit_period config →
  (∀ (n : nat) (now : Z) (lat : list nat) (b : B) (h : gmap loc dict),
     ∃ ts w', admit_many config n (init_world now lat b h) = (Ok ts, w')
       ∧ length ts = n
       ∧ ∀ x, Z.of_nat (length (in_window config x ts))
              ≤ rate_limit_calls config)
  ∧ (∀ w : World B,
       let now := clock w + Z.of_nat (hd 0%nat (latency w)) in
       let kept := filter (λ c, now - c < rate_limit_period config)
                     (_rate_limit_calls w) in
       ∃ w', _rate_limit_check config w = (Ok tt, w')
         ∧ _rate_limit_calls w' = kept ++ [clock w']
         ∧ now ≤ clock w'
         ∧ (rate_limit_calls config ≤ Z.of_nat (length kept) →
              ∃ oldest, py_min kept = Some oldest
                ∧ oldest + rate_limit_period config ≤ clock w'
                ∧ sleeps w' = sleeps w
                    ++ [rate_limit_period config - (now - oldest)])
         ∧ (Z.of_nat (length kept) < rate_limit_calls config →
              sleeps w' = sleeps w)).
Proof.
  intros Hq Hp. split.
  - intros n now lat b h.
    destruct (admit_many_inv config n [] (init_world now lat b h) Hq Hp
                (limiter_inv_init config now lat b h Hq))
      as (ts & w' & Hrun & Hlen & Hinv).
    exists ts, w'. split; [exact Hrun|]. split; [exact Hlen|].
    destruct Hinv as (_ & _ & _ & Hwin). exact Hwin.
  - intros w now kept.
    destruct (rate_limit_check_step config w Hq)
      as (w' & Hrun & Hcalls & Hnow & Hfull & Hfree & _).
    exists w'. repeat split; assumption.
Qed.

(** Quota 2 per 10 time units, five calls with no time passing in between
    on a clock that starts at 0. *)
Lemma rate_limit_sliding_window_witness :
  let config := mkConfig "http://h" None 2 10 3 30 in
  1 ≤ rate_limit_calls config ∧ 0 < rate_limit_period config
  ∧ ∃ ts w', admit_many config 5 (init_world 0 [] tt ∅) = (Ok ts, w')
      ∧ length ts = 5%nat
      ∧ ∀ x, Z.of_nat (length (in_window config x ts))
             ≤ rate_limit_calls config.
Proof.
  intros config.
  assert (Hq : 1 ≤ rate_limit_calls config) by (simpl; lia).
  assert (Hp : 0 < rate_limit_period config) by (simpl; lia).
  split; [exact Hq|]. split; [exact Hp|].
  exact (proj1 (rate_limit_sliding_window config Hq Hp) 5%nat 0 [] tt ∅).
Defined.

Example admit_many_burst :
  let config := mkConfig "http://h" None 2 10 3 30 in
  let r := admit_many config 5 (init_world 0 [] tt ∅) in
  r.1 = Ok [0; 0; 10; 10; 20] ∧ sleeps r.2 = [10; 10].
Proof. vm_compute. split; reflexivity. Qed.

(** Without the quota of at least one call the limiter can raise: with a
    quota of 0 the first call takes [min] of an empty list. *)
Example rate_limit_check_zero_quota :
  let config := mkConfig "http://h" None 0 10 3 30 in
  (_rate_limit_check config (init_world 0 [] tt ∅)).1 = Raise ValueError.
Proof. vm_compute. reflexivity. Qed.

(** ** Response helpers *)

Lemma split_nonempty (sep : ascii) (s : string) : split sep s ≠ [].
Proof.
  destruct s as [|c rest]; simpl; [discriminate|].
  destruct (Ascii.eqb c sep); [discriminate|].
  destruct (split sep rest); discriminate.
Qed.

Lemma join_split (sep : ascii) (s : string) : join_with sep (split sep s) = s.
Proof.
  induction s as [|c rest IH]; [reflexivity|]. simpl.
  destruct (Ascii.eqb c sep) eqn:Hc.
  - apply Ascii.eqb_eq in Hc as ->.
    pose proof (split_nonempty sep rest) as Hne.
    destruct (split sep rest) as [|seg segs]; [contradiction|].
    change (join_with sep (EmptyString :: seg :: segs))
      with (String sep (join_with sep (seg :: segs))).
    rewrite IH. reflexivity.
  - pose proof (split_nonempty sep rest) as Hne.
    destruct (split sep rest) as [|seg segs]; [contradiction|].
    destruct segs as [|seg' segs].
    + simpl in *. rewrite IH. reflexivity.
    + change (join_with sep (String c seg :: seg' :: segs))
        with (String c (join_with sep (seg :: seg' :: segs))).
      rewrite IH. reflexivity.
Qed.

Lemma split_segments (sep : ascii) (s : string) :
  Forall (λ seg, mem_char sep seg = false) (split sep s).
Proof.
  induction s as [|c rest IH]; simpl.
  - constructor; [reflexivity|constructor].
  - destruct (Ascii.eqb c sep) eqn:Hc.
    + constructor; [reflexivity|exact IH].
    + destruct (split sep rest) as [|seg segs].
      * constructor; [|constructor]. unfold mem_char. simpl.
        rewrite Ascii.eqb_sym, Hc. reflexivity.
      * apply Forall_cons in IH as [Hseg Hsegs].
        constructor; [|exact Hsegs]. unfold mem_char in *. simpl.
        rewrite Ascii.eqb_sym, Hc. exact Hseg.
Qed.

Lemma walk_keys_None (keys : list string) : walk_keys JNull keys = JNull.
Proof. destruct keys; reflexivity. Qed.

(** C8.  [_get_nested_value] cuts the path at every ["."] (the segments
    joined by ["."] give the path back and hold no ["."]) and walks the
    mappings one segment at a time: with no segment left the current value
    is the answer, a segment found in the current mapping moves to its
    value, and a missing segment or a current value that is no mapping
    gives [None] ([JNull]) without raising.  So ["a.b"] yields ["c"] in
    [{"a": {"b": "c"}}] and [None] in [{"a": {}}] and in [{}]. *)
Theorem get_nested_value_walks (data : json) (path : string) :
  let keys := split "." path in
  (join_with "." keys = path
   ∧ Forall (λ seg, mem_char "." seg = false) keys
   ∧ keys ≠ []
   ∧ _get_nested_value data path = walk_keys data keys)
  ∧ (∀ v, walk_keys v [] = v)
  ∧ (∀ (d : dict) key rest v, d !! key = Some v →
       walk_keys (JDict d) (key :: rest) = walk_keys v rest)
  ∧ (∀ (d : dict) key rest, d !! key = None →
       walk_keys (JDict d) (key :: rest) = JNull)
  ∧ (∀ v key rest, is_dict v = false → walk_keys v (key :: rest) = JNull)
  ∧ _get_nested_value (JDict {[ "a" := JDict {[ "b" := JStr "c" ]} ]}) "a.b"
    = JStr "c"
  ∧ _get_nested_value (JDict {[ "a" := JDict ∅ ]}) "a.b" = JNull
  ∧ _get_nested_value (JDict ∅) "a.b" = JNull.
Proof.
  intros keys. split; [|repeat split].
  - repeat split.
    + apply join_split.
    + apply split_segments.
    + apply split_nonempty.
  - intros d key rest v Hv. simpl. rewrite Hv. reflexivity.
  - intros d key rest Hv. simpl. rewrite Hv. apply walk_keys_None.
  - intros v key rest Hv. destruct v; try reflexivity; discriminate.
Qed.

Lemma get_nested_value_walks_witness :
  walk_keys (JDict {[ "a" := JStr "x" ]}) ["a"; "b"] = JNull
  ∧ walk_keys (JDict {[ "a" := JStr "x" ]}) ["b"] = JNull.
Proof.
  pose proof (get_nested_value_walks JNull "a.b")
    as (_ & _ & Hfound & Hmissing & Hnodict & _).
  split.
  - rewrite (Hfound {[ "a" := JStr "x" ]} "a" ["b"] (JStr "x"))
      by reflexivity.
    apply Hnodict. reflexivity.
  - apply Hmissing. reflexivity.
Defined.

(** C3.  [_extract_records_from_response] is a function of its argument
    alone, defined on every value: a list comes back as it is; otherwise
    a mapping gives the value under ["data"] when it has that key,
    whatever else it holds, else the one under ["results"], else the one
    under ["items"]; every other value, and a mapping with none of the
    three keys, comes back as the one-element list holding it. *)
Theorem extract_records_precedence (data : json) :
  (is_list data = true → _extract_records_from_response data = data)
  ∧ (∀ (d : dict) v, data = JDict d → d !! "data" = Some v →
       _extract_records_from_response data = v)
  ∧ (∀ (d : dict) v, data = JDict d → d !! "data" = None →
       d !! "results" = Some v → _extract_records_from_response data = v)
  ∧ (∀ (d : dict) v, data = JDict d → d !! "data" = None →
       d !! "results" = None → d !! "items" = Some v →
       _extract_records_from_response data = v)
  ∧ (∀ d : dict, data = JDict d → d !! "data" = None →
       d !! "results" = None → d !! "items" = None →
       _extract_records_from_response data = JList [data])
  ∧ (is_list data = false → is_dict data = false →
       _extract_records_from_response data = JList [data]).
Proof.
  repeat split.
  - destruct data; try discriminate. reflexivity.
  - intros d v -> Hd. simpl. rewrite Hd. reflexivity.
  - intros d v -> Hd Hr. simpl. rewrite Hd, Hr. reflexivity.
  - intros d v -> Hd Hr Hi. simpl. rewrite Hd, Hr, Hi. reflexivity.
  - intros d -> Hd Hr Hi. simpl. rewrite Hd, Hr, Hi. reflexivity.
  - destruct data; try discriminate; reflexivity.
Qed.

(** A mapping holding all three keys gives the value under ["data"]. *)
Lemma extract_records_precedence_witness :
  let d : dict := {[ "items" := JList [JNum 3]; "results" := JList [JNum 2];
                     "data" := JList [JNum 1] ]} in
  d !! "data" = Some (JList [JNum 1])
  ∧ _extract_records_from_response (JDict d) = JList [JNum 1].
Proof.
  intros d. split; [reflexivity|].
  apply (proj1 (proj2 (extract_records_precedence (JDict d)))
           d (JList [JNum 1]) eq_refl eq_refl).
Defined.

Example extract_records_examples :
  _extract_records_from_response (JList [JNum 1; JNum 2; JNum 3])
  = JList [JNum 1; JNum 2; JNum 3]
  ∧ _extract_records_from_response (JDict {[ "data" := JList [JNum 1] ]})
    = JList [JNum 1]
  ∧ _extract_records_from_response (JDict {[ "results" := JList [JNum 1] ]})
    = JList [JNum 1]
  ∧ _extract_records_from_response (JDict {[ "items" := JList [JNum 1] ]})
    = JList [JNum 1]
  ∧ _extract_records_from_response (JDict {[ "x" := JNum 1 ]})
    = JList [JDict {[ "x" := JNum 1 ]}]
  ∧ _extract_records_from_response (JNum 7) = JList [JNum 7].
Proof. repeat split. Qed.

(** [len] of a string counts characters, not the bytes of the encoding:
    ["héé"] has three. *)
Example sized_string_characters :
  sized (JStr "héé") = Some 3
  ∧ String.length "héé" = 5%nat
  ∧ sized (JStr "abc") = Some 3
  ∧ sized (JNum 3) = None.
Proof. repeat split. Qed.

(** ** Requests *)

Ltac unfold_monad :=
  unfold mbind, M_bind, bind, mret, M_ret, ret, raise, try_except,
    Exception in *.

Section Request_proofs.
Context {B : Type}.
Variable serve : B → Request → result Response * B.
Variable config : ConnectorConfig.

Lemma sends_refl (rq : Request) (w : World B) : sends rq 0 w w.
Proof. repeat split. simpl. rewrite app_nil_r. reflexivity. Qed.

Lemma sends_trans (rq : Request) (n m : nat) (w1 w2 w3 : World B) :
  sends rq n w1 w2 → sends rq m w2 w3 → sends rq (n + m) w1 w3.
Proof.
  intros (Hh1 & Hy1 & Hs1) (Hh2 & Hy2 & Hs2). repeat split.
  - congruence.
  - congruence.
  - rewrite Hs2, Hs1, replicate_add, app_assoc. reflexivity.
Qed.

(** The limiter touches the clock, its own list and the sleep log only,
    whatever the quota. *)
Lemma rate_limit_check_frame (rq : Request) (w w' : World B) (r : result unit) :
  _rate_limit_check config w = (r, w') →
  sends rq 0 w w' ∧ backend w' = backend w.
Proof.
  unfold _rate_limit_check, time_time, get_calls, set_calls, time_sleep.
  unfold_monad. simpl.
  destruct (bool_decide (rate_limit_calls config ≤ _)); simpl;
    [destruct (py_min _); simpl; [destruct (bool_decide (0 < _)); simpl|]|];
    intros [= <- <-]; (split; [|reflexivity]);
    repeat split; simpl; rewrite ?app_nil_r; reflexivity.
Qed.

Lemma time_sleep_frame (rq : Request) (d : Z) (w : World B) :
  ∃ w', time_sleep d w = (Ok tt, w') ∧ sends rq 0 w w'
        ∧ backend w' = backend w
        ∧ _rate_limit_calls w' = _rate_limit_calls w.
Proof.
  eexists. split; [reflexivity|]. repeat split. simpl.
  rewrite app_nil_r. reflexivity.
Qed.

Lemma session_request_frame (rq : Request) (w w' : World B)
    (r : result Response) :
  session_request serve rq w = (r, w') →
  sends rq 1 w w' ∧ (r, backend w') = serve (backend w) rq.
Proof.
  unfold session_request. destruct (serve (backend w) rq) as [o b].
  intros [= <- <-]. repeat split.
Qed.

Lemma make_request_attempt_frame (method url : string)
    (params : option dict) (w w' : World B) (r : result Response) :
  _make_request_attempt serve config method url params w = (r, w') →
  ∃ n, (n ≤ 1)%nat
    ∧ sends (mkRequest method url params (timeout config)) n w w'.
Proof.
  unfold _make_request_attempt. unfold_monad.
  destruct (_rate_limit_check config w) as [r0 w0] eqn:Hlim.
  apply (rate_limit_check_frame
           (mkRequest method url params (timeout config))) in Hlim
    as [Hlim _].
  destruct r0 as [[]|e].
  - destruct (session_request _ _ w0) as [r1 w1] eqn:Hreq.
    apply session_request_frame in Hreq as [Hreq _].
    pose proof (sends_trans _ _ _ _ _ _ Hlim Hreq) as Hboth.
    destruct r1 as [resp|e].
    + unfold raise_for_status. unfold_monad.
      case_bool_decide; intros [= <- <-]; exists 1%nat; split; auto.
    + destruct (RequestException e); intros [= <- <-];
        exists 1%nat; split; auto.
  - intros [= <- <-]. exists 0%nat. split; [lia|exact Hlim].
Qed.

Lemma retrying_frame {A : Type} (rq : Request) (wait : Z → Z)
    (fn : M B A) :
  (∀ w w' r, fn w = (r, w') → ∃ n, (n ≤ 1)%nat ∧ sends rq n w w') →
  ∀ (remaining : nat) (attempt_number : Z) (w w' : World B) (r : result A),
    retrying wait fn remaining attempt_number w = (r, w') →
    ∃ n, (n ≤ S remaining)%nat ∧ sends rq n w w'.
Proof.
  intros Hfn remaining.
  induction remaining as [|remaining IH]; intros attempt_number w w' r;
    simpl; unfold_monad;
    destruct (fn w) as [r0 w0] eqn:Hcall;
    destruct (Hfn _ _ _ Hcall) as (n & Hn & Hsent);
    destruct r0 as [a|e].
  - intros [= <- <-]. exists n. split; [lia|exact Hsent].
  - intros [= <- <-]. exists n. split; [lia|exact Hsent].
  - intros [= <- <-]. exists n. split; [lia|exact Hsent].
  - destruct (time_sleep_frame rq (wait attempt_number) w0)
      as (w1 & -> & Hsleep & _).
    intros Hrest. apply IH in Hrest as (m & Hm & Hrest).
    exists (n + (0 + m))%nat. split; [lia|].
    exact (sends_trans _ _ _ _ _ _ Hsent
             (sends_trans _ _ _ _ _ _ Hsleep Hrest)).
Qed.

Lemma make_request_frame (method url : string) (params : option dict)
    (w w' : World B) (r : result Response) :
  _make_request serve config method url params w = (r, w') →
  ∃ n, (n ≤ 3)%nat
    ∧ sends (mkRequest method url params (timeout config)) n w w'.
Proof.
  intros Hrun. unfold _make_request, retry in Hrun.
  eapply retrying_frame in Hrun.
  - destruct Hrun as (n & Hn & Hsent). exists n. split; [simpl in Hn; lia|].
    exact Hsent.
  - intros w0 w1 r0. apply make_request_attempt_frame.
Qed.

Lemma response_json_frame (resp : Response) (w w' : World B)
    (r : result json) :
  response_json resp w = (r, w') → w' = w.
Proof.
  unfold response_json. unfold_monad.
  destruct (body resp); intros [= <- <-]; reflexivity.
Qed.

Lemma get_frame (endpoint : string) (params : option dict)
    (w w' : World B) (r : result json) :
  get serve config endpoint params w = (r, w') →
  ∃ n, (n ≤ 3)%nat
    ∧ sends (mkRequest "GET" (build_url config endpoint) params
               (timeout config)) n w w'.
Proof.
  unfold get. unfold_monad.
  destruct (_make_request _ _ _ _ _ w) as [r0 w0] eqn:Hreq.
  apply make_request_frame in Hreq.
  destruct r0 as [resp|e].
  - intros Hjson. apply response_json_frame in Hjson as ->. exact Hreq.
  - intros [= <- <-]. exact Hreq.
Qed.

Lemma post_frame (endpoint : string) (params : option dict)
    (w w' : World B) (r : result json) :
  post serve config endpoint params w = (r, w') →
  ∃ n, (n ≤ 3)%nat
    ∧ sends (mkRequest "POST" (build_url config endpoint) params
               (timeout config)) n w w'.
Proof.
  unfold post. unfold_monad.
  destruct (_make_request _ _ _ _ _ w) as [r0 w0] eqn:Hreq.
  apply make_request_frame in Hreq.
  destruct r0 as [resp|e].
  - intros Hjson. apply response_json_frame in Hjson as ->. exact Hreq.
  - intros [= <- <-]. exact Hreq.
Qed.

(** With a quota of at least one call, a request the service answers with
    a decodable body and no error status succeeds at the first attempt. *)
Lemma get_first_attempt (endpoint : string) (params : option dict)
    (w : World B) (resp : Response) (b' : B) (v : json) :
  1 ≤ rate_limit_calls config →
  serve (backend w) (mkRequest "GET" (build_url config endpoint) params
                       (timeout config)) = (Ok resp, b') →
  ¬ (400 ≤ status_code resp < 600) →
  body resp = Some v →
  ∃ w', get serve config endpoint params w = (Ok v, w')
    ∧ sends (mkRequest "GET" (build_url config endpoint) params
               (timeout config)) 1 w w'
    ∧ backend w' = b'.
Proof.
  intros Hq Hserve Hstatus Hbody.
  destruct (rate_limit_check_step config w Hq)
    as (w0 & Hlim & _ & _ & _ & _ & Hb & Hs & Hh & Hy).
  unfold get, _make_request, retry, _make_request_attempt. simpl.
  unfold_monad. rewrite Hlim.
  unfold session_request. rewrite Hb, Hserve.
  unfold raise_for_status. rewrite bool_decide_eq_false_2 by exact Hstatus.
  unfold_monad. unfold response_json. rewrite Hbody. unfold_monad.
  eexists. split; [reflexivity|]. repeat split; simpl; congruence.
Qed.
End Request_proofs.

(** ** URLs *)

Lemma lstrip_slashes (endpoint : string) :
  ∃ k, endpoint = (slashes k ++ lstrip "/" endpoint)%string.
Proof.
  induction endpoint as [|c rest IH].
  - exists 0%nat. reflexivity.
  - simpl. unfold mem_char. simpl.
    destruct (Ascii.eqb c "/") eqn:Hc; simpl.
    + apply Ascii.eqb_eq in Hc as ->. destruct IH as [k IH].
      exists (S k).
      change (String "/" rest
              = String "/" (slashes k ++ lstrip "/" rest)%string).
      f_equal. exact IH.
    + exists 0%nat. reflexivity.
Qed.

Lemma lstrip_no_slash (endpoint : string) :
  starts_with_slash (lstrip "/" endpoint) = false.
Proof.
  induction endpoint as [|c rest IH]; [reflexivity|].
  simpl. unfold mem_char. simpl.
  destruct (Ascii.eqb c "/") eqn:Hc; simpl; [exact IH|exact Hc].
Qed.

Lemma rstrip_no_slash (base : string) :
  ends_with_slash base = false → rstrip "/" base = base.
Proof.
  induction base as [|c rest IH]; [reflexivity|].
  destruct rest as [|c' rest'].
  - simpl. unfold mem_char. simpl. intros ->. reflexivity.
  - intros Hend. change (ends_with_slash (String c' rest') = false) in Hend.
    change (rstrip "/" (String c (String c' rest')))
      with (match rstrip "/" (String c' rest') with
            | EmptyString => if mem_char c "/" then EmptyString
                             else String c EmptyString
            | r => String c r
            end).
    rewrite (IH Hend). reflexivity.
Qed.

(** C7, as the code has it.  The URL of [get] and of [post] is the base
    URL as configured, one ["/"], and the endpoint without its leading
    slashes: the endpoint's leading slashes never add to the separator,
    and when the base URL does not end in a slash the two are joined by
    exactly one.  Every request either operation sends goes to that URL. *)
Theorem build_url_separator {B : Type}
    (serve : B → Request → result Response * B) (config : ConnectorConfig)
    (endpoint : string) (params : option dict) :
  build_url config endpoint
  = (base_url config ++ "/" ++ lstrip "/" endpoint)%string
  ∧ starts_with_slash (lstrip "/" endpoint) = false
  ∧ (∃ k, endpoint = (slashes k ++ lstrip "/" endpoint)%string)
  ∧ (ends_with_slash (base_url config) = false →
       joined_by_one_slash (base_url config) endpoint
         (build_url config endpoint))
  ∧ (∀ w w' r, get serve config endpoint params w = (r, w') →
       ∃ n, (n ≤ 3)%nat
         ∧ sends (mkRequest "GET" (build_url config endpoint) params
                    (timeout config)) n w w')
  ∧ (∀ w w' r, post serve config endpoint params w = (r, w') →
       ∃ n, (n ≤ 3)%nat
         ∧ sends (mkRequest "POST" (build_url config endpoint) params
                    (timeout config)) n w w').
Proof.
  split; [reflexivity|]. split; [apply lstrip_no_slash|].
  split; [apply lstrip_slashes|]. split; [|split].
  - intros Hbase. unfold joined_by_one_slash, build_url.
    rewrite (rstrip_no_slash _ Hbase). reflexivity.
  - intros w w' r. apply get_frame.
  - intros w w' r. apply post_frame.
Qed.

Lemma build_url_separator_witness :
  let config := default_config "http://h" in
  ends_with_slash (base_url config) = false
  ∧ joined_by_one_slash (base_url config) "//a/b"
      (build_url config "//a/b")
  ∧ build_url config "//a/b" = "http://h/a/b".
Proof.
  intros config. split; [reflexivity|]. split; [|reflexivity].
  apply (proj1 (proj2 (proj2 (proj2
           (build_url_separator serve_script config "//a/b" None)))));
    reflexivity.
Defined.

(** C7, as the specification has it, fails: a base URL that ends in a
    slash keeps it, and the URL has two slashes at the joint. *)
Lemma build_url_trailing_slash :
  let config := default_config "http://h/" in
  build_url config "a" = "http://h//a"
  ∧ ¬ joined_by_one_slash (base_url config) "a" (build_url config "a")
  ∧ sent (get serve_script config "a" None
            (init_world 0 [] [ok_json JNull] ∅)).2
    = [mkRequest "GET" "http://h//a" None 30].
Proof.
  intros config. split; [reflexivity|]. split; [|reflexivity].
  unfold joined_by_one_slash. vm_compute. discriminate.
Qed.

(** ** Retries *)

(** The waits of [wait_exponential(multiplier=1, min=2, max=10)]. *)
Example wait_exponential_values :
  map (wait_exponential 1 2 10) [1; 2; 3; 4; 5; 6] = [2; 2; 4; 8; 10; 10].
Proof. reflexivity. Qed.

Lemma wait_exponential_bounds (attempt_number : Z) :
  2 ≤ wait_exponential 1 2 10 attempt_number ≤ 10.
Proof. unfold wait_exponential. lia. Qed.

(** [_make_request] never reads [max_retries]. *)
Lemma make_request_ignores_max_retries {B : Type}
    (serve : B → Request → result Response * B) (config : ConnectorConfig)
    (m : Z) (method url : string) (params : option dict) :
  _make_request serve (with_max_retries config m) method url params
  = _make_request serve config method url params.
Proof. reflexivity. Qed.

(** What [_make_request] does, attempt by attempt: the first success is
    returned; after a failure it sleeps 2 and tries again, twice at most;
    the failure of the third attempt is the one raised. *)
Lemma make_request_three_attempts {B : Type}
    (serve : B → Request → result Response * B) (config : ConnectorConfig)
    (method url : string) (params : option dict) (w : World B) :
  let attempt := _make_request_attempt serve config method url params in
  _make_request serve config method url params w
  = match attempt w with
    | (Ok response, w1) => (Ok response, w1)
    | (Raise _, w1) =>
        match attempt (time_sleep 2 w1).2 with
        | (Ok response, w2) => (Ok response, w2)
        | (Raise _, w2) => attempt (time_sleep 2 w2).2
        end
    end.
Proof.
  intros attempt. unfold _make_request, retry. simpl.
  unfold mbind, M_bind, bind, try_except, raise, Exception. fold attempt.
  destruct (attempt w) as [[response|e1] w1]; [reflexivity|].
  change (wait_exponential 1 2 10 1) with 2.
  change (wait_exponential 1 2 10 (1 + 1)) with 2. simpl.
  destruct (attempt _) as [[response|e2] w2]; [reflexivity|]. simpl.
  destruct (attempt _) as [[response|e3] w3]; reflexivity.
Qed.

(** C2 at the failing inputs.  With [max_retries = 1] and a service that
    refuses the first request and answers the second, [_make_request]
    returns the answer after two requests although the one configured
    attempt has failed; with [max_retries = 5] and a service that fails
    three times and would then answer, it raises the third failure after
    three requests and waits of 2 and 2. *)
Theorem make_request_attempts_not_configured :
  let ok := mkResponse 200 (Some (JList [])) in
  let one := with_max_retries (default_config "http://h") 1 in
  let five := with_max_retries (default_config "http://h") 5 in
  let r1 := _make_request serve_script one "GET" "http://h/a" None
              (init_world 0 [] [Raise (ConnectionError 1); Ok ok] ∅) in
  let r5 := _make_request serve_script five "GET" "http://h/a" None
              (init_world 0 []
                 [Raise (ConnectionError 1); Raise (ConnectionError 2);
                  Ok (mkResponse 503 None); Ok ok] ∅) in
  (r1.1 = Ok ok ∧ length (sent r1.2) = 2%nat ∧ sleeps r1.2 = [2])
  ∧ (r5.1 = Raise (HTTPError 503) ∧ length (sent r5.2) = 3%nat
     ∧ sleeps r5.2 = [2; 2] ∧ backend r5.2 = [Ok ok]).
Proof. vm_compute. repeat split. Qed.

(** ** Pagination, one iteration *)

Section Step_proofs.
Context {B : Type}.
Variable serve : B → Request → result Response * B.
Variable config : ConnectorConfig.

Lemma fresh_loc_unused (h : gmap loc dict) : h !! fresh (dom h) = None.
Proof. apply not_elem_of_dom. apply is_fresh. Qed.

(** The lines before the [try] of [paginate_offset] always succeed; they
    write [limit] and [offset] into the object [kwargs['params']] refers
    to (a new one when the caller passed none) and touch nothing else. *)
Lemma offset_prepare_spec (limit : Z) (st : offset_state) (w : World B) :
  ∃ params w1, offset_prepare limit st w = (Ok params, w1)
    ∧ heap w1 = <[params := <["offset" := JNum (os_offset st)]>
                              (<["limit" := JNum limit]>
                                 (default ∅ (heap w !! params)))]> (heap w)
    ∧ match os_kwargs st with
      | Some l => params = l
      | None => heap w !! params = None
      end
    ∧ sent w1 = sent w ∧ yielded w1 = yielded w ∧ backend w1 = backend w.
Proof.
  unfold offset_prepare, update_limit_offset, kwargs_get_params.
  destruct (os_kwargs st) as [l|]; unfold_monad; simpl.
  - eexists _, _. split; [reflexivity|]. repeat split.
  - eexists _, _. split; [reflexivity|]. simpl.
    rewrite lookup_insert_eq, insert_insert_eq, fresh_loc_unused. simpl.
    repeat split.
Qed.

Lemma cursor_prepare_spec (cursor_param : string) (st : cursor_state)
    (w : World B) :
  ∃ params w1, cursor_prepare cursor_param st w = (Ok params, w1)
    ∧ heap w1
      = (if truthy (cs_cursor st)
         then <[params := <[cursor_param := cs_cursor st]>
                            (default ∅ (heap w !! params))]> (heap w)
         else match cs_kwargs st with
              | Some _ => heap w
              | None => <[params := ∅]> (heap w)
              end)
    ∧ match cs_kwargs st with
      | Some l => params = l
      | None => heap w !! params = None
      end
    ∧ sent w1 = sent w ∧ yielded w1 = yielded w ∧ backend w1 = backend w.
Proof.
  unfold cursor_prepare, set_item, kwargs_get_params.
  destruct (cs_kwargs st) as [l|], (truthy (cs_cursor st));
    unfold_monad; simpl.
  - eexists _, _. split; [reflexivity|]. repeat split.
  - eexists _, _. split; [reflexivity|]. destruct w. repeat split.
  - eexists _, _. split; [reflexivity|]. simpl.
    rewrite lookup_insert_eq, insert_insert_eq, fresh_loc_unused. simpl.
    repeat split.
  - eexists _, _. split; [reflexivity|]. simpl.
    rewrite fresh_loc_unused. repeat split.
Qed.

(** A fetch sends at most three requests, each carrying the mapping as it
    is when the fetch starts, and changes no mapping and yields nothing. *)
Lemma fetch_frame (endpoint : string) (params : loc) (w w' : World B)
    (r : result json) :
  fetch serve config endpoint params w = (r, w') →
  ∃ n, (n ≤ 3)%nat
    ∧ sends (mkRequest "GET" (build_url config endpoint)
               (Some (default ∅ (heap w !! params))) (timeout config))
        n w w'.
Proof.
  unfold fetch, deref. unfold_monad. apply get_frame.
Qed.

(** What the rest of the [try] block of [paginate_offset] does with the
    data of a fetch. *)
Lemma offset_page_spec (limit : Z) (st : offset_state) (params : loc)
    (data : json) (w : World B) :
  let records := _extract_records_from_response data in
  offset_page limit st params data w
  = if truthy records then
      match sized records with
      | Some n =>
          if bool_decide (n < limit) then (Ok Break, (yield_ records w).2)
          else (Ok (Continue (mkOffset (os_offset st + limit)
                                (os_page st + 1) (Some params))),
                (yield_ records w).2)
      | None => (Raise TypeError, (yield_ records w).2)
      end
    else (Ok Break, w).
Proof.
  intros records. unfold offset_page. fold records.
  destruct (truthy records); simpl; [|reflexivity].
  unfold py_len. unfold_monad. simpl.
  destruct (sized records) as [n|]; simpl; [|reflexivity].
  case_bool_decide; reflexivity.
Qed.

Lemma cursor_page_spec (cursor_path : string) (st : cursor_state)
    (params : loc) (data : json) (w : World B) :
  let records := _extract_records_from_response data in
  let cursor := _get_nested_value data cursor_path in
  cursor_page cursor_path st params data w
  = if truthy records then
      if truthy cursor
      then (Ok (Continue (mkCursor cursor (cs_page st + 1) (Some params))),
            (yield_ records w).2)
      else (Ok Break, (yield_ records w).2)
    else (Ok Break, w).
Proof.
  intros records cursor. unfold cursor_page. fold records. fold cursor.
  destruct (truthy records); simpl; [|reflexivity].
  unfold_monad. simpl. destruct (truthy cursor); reflexivity.
Qed.

(** An iteration of [paginate_offset] in terms of its three parts. *)
Lemma offset_step_unfold (endpoint : string) (limit : Z)
    (max_pages : option Z) (st : offset_state) (w : World B) :
  paginate_offset_step serve config endpoint limit max_pages st w
  = if max_pages_reached max_pages (os_page st) then (Ok Break, w)
    else
      match offset_prepare limit st w with
      | (Ok params, w1) =>
          match fetch serve config endpoint params w1 with
          | (Ok data, w2) =>
              match offset_page limit st params data w2 with
              | (Ok c, w3) => (Ok c, w3)
              | (Raise _, w3) => (Ok Break, w3)
              end
          | (Raise _, w2) => (Ok Break, w2)
          end
      | (Raise e, w1) => (Raise e, w1)
      end.
Proof.
  unfold paginate_offset_step.
  destruct (max_pages_reached max_pages (os_page st)); [reflexivity|].
  unfold_monad.
  destruct (offset_prepare limit st w) as [[params|e] w1]; [|reflexivity].
  destruct (fetch serve config endpoint params w1) as [[data|e] w2];
    [|reflexivity].
  destruct (offset_page limit st params data w2) as [[c|e] w3]; reflexivity.
Qed.

Lemma cursor_step_unfold (endpoint cursor_param cursor_path : string)
    (max_pages : option Z) (st : cursor_state) (w : World B) :
  paginate_cursor_step serve config endpoint cursor_param cursor_path
    max_pages st w
  = if max_pages_reached max_pages (cs_page st) then (Ok Break, w)
    else
      match cursor_prepare cursor_param st w with
      | (Ok params, w1) =>
          match fetch serve config endpoint params w1 with
          | (Ok data, w2) =>
              match cursor_page cursor_path st params data w2 with
              | (Ok c, w3) => (Ok c, w3)
              | (Raise _, w3) => (Ok Break, w3)
              end
          | (Raise _, w2) => (Ok Break, w2)
          end
      | (Raise e, w1) => (Raise e, w1)
      end.
Proof.
  unfold paginate_cursor_step.
  destruct (max_pages_reached max_pages (cs_page st)); [reflexivity|].
  unfold_monad.
  destruct (cursor_prepare cursor_param st w) as [[params|e] w1];
    [|reflexivity].
  destruct (fetch serve config endpoint params w1) as [[data|e] w2];
    [|reflexivity].
  destruct (cursor_page cursor_path st params data w2) as [[c|e] w3];
    reflexivity.
Qed.

(** No iteration lets an exception out. *)
Lemma offset_step_returns (endpoint : string) (limit : Z)
    (max_pages : option Z) (st : offset_state) (w : World B) :
  ∃ c w', paginate_offset_step serve config endpoint limit max_pages st w
          = (Ok c, w').
Proof.
  rewrite offset_step_unfold.
  destruct (max_pages_reached max_pages (os_page st)); [eauto|].
  destruct (offset_prepare_spec limit st w) as (params & w1 & -> & _).
  destruct (fetch serve config endpoint params w1) as [[data|e] w2];
    [|eauto].
  destruct (offset_page limit st params data w2) as [[c|e] w3]; eauto.
Qed.

Lemma cursor_step_returns (endpoint cursor_param cursor_path : string)
    (max_pages : option Z) (st : cursor_state) (w : World B) :
  ∃ c w', paginate_cursor_step serve config endpoint cursor_param
            cursor_path max_pages st w = (Ok c, w').
Proof.
  rewrite cursor_step_unfold.
  destruct (max_pages_reached max_pages (cs_page st)); [eauto|].
  destruct (cursor_prepare_spec cursor_param st w) as (params & w1 & -> & _).
  destruct (fetch serve config endpoint params w1) as [[data|e] w2];
    [|eauto].
  destruct (cursor_page cursor_path st params data w2) as [[c|e] w3]; eauto.
Qed.

Lemma offset_loop_returns (fuel : nat) (endpoint : string) (limit : Z)
    (max_pages : option Z) : ∀ (st : offset_state) (w : World B),
  ∃ done w', paginate_offset_loop serve config fuel endpoint limit
               max_pages st w = (Ok done, w').
Proof.
  induction fuel as [|fuel IH]; intros st w; simpl; [eexists _, _; reflexivity|].
  unfold_monad.
  destruct (offset_step_returns endpoint limit max_pages st w)
    as (c & w1 & ->).
  destruct c as [|st']; [eexists _, _; reflexivity|apply IH].
Qed.

Lemma cursor_loop_returns (fuel : nat)
    (endpoint cursor_param cursor_path : string) (max_pages : option Z) :
  ∀ (st : cursor_state) (w : World B),
  ∃ done w', paginate_cursor_loop serve config fuel endpoint cursor_param
               cursor_path max_pages st w = (Ok done, w').
Proof.
  induction fuel as [|fuel IH]; intros st w; simpl; [eexists _, _; reflexivity|].
  unfold_monad.
  destruct (cursor_step_returns endpoint cursor_param cursor_path
              max_pages st w) as (c & w1 & ->).
  destruct c as [|st']; [eexists _, _; reflexivity|apply IH].
Qed.
End Step_proofs.

(** ** Failure inside an iteration *)

(** C6.  An iteration of either paginator always returns normally, and so
    does the generator however long it is driven: nothing raised while a
    page is fetched or handled reaches the caller.  When the fetch of an
    iteration raises, the iteration yields no page and ends the
    generator, in the very state and with the very outcome of an
    iteration whose fetch returned no records. *)
Theorem pagination_failure_is_end_of_data {B : Type}
    (serve : B → Request → result Response * B) (config : ConnectorConfig)
    (endpoint : string) (max_pages : option Z) :
  (∀ limit st w,
     (∃ c w', paginate_offset_step serve config endpoint limit max_pages
                st w = (Ok c, w'))
     ∧ ∀ params w1 fetched w2,
         max_pages_reached max_pages (os_page st) = false →
         offset_prepare limit st w = (Ok params, w1) →
         fetch serve config endpoint params w1 = (fetched, w2) →
         (∃ e, fetched = Raise e)
         ∨ (∃ data, fetched = Ok data
              ∧ truthy (_extract_records_from_response data) = false) →
         paginate_offset_step serve config endpoint limit max_pages st w
         = (Ok Break, w2)
         ∧ yielded w2 = yielded w)
  ∧ (∀ cursor_param cursor_path st w,
       (∃ c w', paginate_cursor_step serve config endpoint cursor_param
                  cursor_path max_pages st w = (Ok c, w'))
       ∧ ∀ params w1 fetched w2,
           max_pages_reached max_pages (cs_page st) = false →
           cursor_prepare cursor_param st w = (Ok params, w1) →
           fetch serve config endpoint params w1 = (fetched, w2) →
           (∃ e, fetched = Raise e)
           ∨ (∃ data, fetched = Ok data
                ∧ truthy (_extract_records_from_response data) = false) →
           paginate_cursor_step serve config endpoint cursor_param
             cursor_path max_pages st w = (Ok Break, w2)
           ∧ yielded w2 = yielded w)
  ∧ (∀ fuel limit kwargs w,
       ∃ done w', paginate_offset serve config fuel endpoint limit
                    max_pages kwargs w = (Ok done, w'))
  ∧ (∀ fuel cursor_param cursor_path kwargs w,
       ∃ done w', paginate_cursor serve config fuel endpoint cursor_param
                    cursor_path max_pages kwargs w = (Ok done, w')).
Proof.
  split; [|split; [|split]].
  - intros limit st w. split; [apply offset_step_returns|].
    intros params w1 fetched w2 Hcut Hprep Hfetch Hend.
    rewrite offset_step_unfold, Hcut, Hprep, Hfetch.
    destruct (offset_prepare_spec limit st w)
      as (params' & w1' & Hprep' & _ & _ & _ & Hy1 & _).
    rewrite Hprep in Hprep'. injection Hprep' as <- <-.
    destruct (fetch_frame _ _ _ _ _ _ _ Hfetch) as (n & _ & _ & Hy2 & _).
    destruct Hend as [[e ->]|(data & -> & Hempty)].
    + split; [reflexivity|congruence].
    + rewrite offset_page_spec, Hempty. split; [reflexivity|congruence].
  - intros cursor_param cursor_path st w.
    split; [apply cursor_step_returns|].
    intros params w1 fetched w2 Hcut Hprep Hfetch Hend.
    rewrite cursor_step_unfold, Hcut, Hprep, Hfetch.
    destruct (cursor_prepare_spec cursor_param st w)
      as (params' & w1' & Hprep' & _ & _ & _ & Hy1 & _).
    rewrite Hprep in Hprep'. injection Hprep' as <- <-.
    destruct (fetch_frame _ _ _ _ _ _ _ Hfetch) as (n & _ & _ & Hy2 & _).
    destruct Hend as [[e ->]|(data & -> & Hempty)].
    + split; [reflexivity|congruence].
    + rewrite cursor_page_spec, Hempty. split; [reflexivity|congruence].
  - intros fuel limit kwargs w. apply offset_loop_returns.
  - intros fuel cursor_param cursor_path kwargs w. apply cursor_loop_returns.
Qed.

(** A service that refuses every connection: the first iteration of the
    offset paginator ends the generator with no page. *)
Lemma pagination_failure_is_end_of_data_witness :
  let config := default_config "http://h" in
  let w := init_world 0 [] [] ∅ in
  let st := mkOffset 0 0 None in
  let p := offset_prepare 100 st w in
  let f := fetch serve_script config "/items" 1%positive p.2 in
  f.1 = Raise (ConnectionError 0)
  ∧ paginate_offset_step serve_script config "/items" 100 None st w
    = (Ok Break, f.2)
  ∧ yielded f.2 = [].
Proof.
  intros config w st p f. split; [vm_compute; reflexivity|].
  apply (proj2 (proj1 (pagination_failure_is_end_of_data serve_script
                         config "/items" None) 100 st w)
           1%positive p.2 f.1 f.2).
  - reflexivity.
  - vm_compute. reflexivity.
  - vm_compute. reflexivity.
  - left. exists (ConnectionError 0). vm_compute. reflexivity.
Defined.

(** ** The offset paginator *)


Lemma truthy_list (p : list json) :
  (0 < length p)%nat → truthy (JList p) = true.
Proof. destruct p; simpl; [lia|reflexivity]. Qed.

(** With [max_pages = 1] one fetch is made and one page at most is
    yielded. *)
Lemma offset_one_page {B : Type} (serve : B → Request → result Response * B)
    (config : ConnectorConfig) (endpoint : string) (limit : Z)
    (kwargs : option loc) (w : World B) (fuel : nat) :
  ∃ done w',
    paginate_offset serve config fuel endpoint limit (Some 1) kwargs w
    = (Ok done, w')
    ∧ ∃ n pages, (n ≤ 3)%nat ∧ length (sent w') = (length (sent w) + n)%nat
        ∧ yielded w' = yielded w ++ pages ∧ (length pages ≤ 1)%nat
        ∧ ∀ params w1 data w2,
            fuel ≠ 0%nat →
            offset_prepare limit (mkOffset 0 0 kwargs) w = (Ok params, w1) →
            fetch serve config endpoint params w1 = (Ok data, w2) →
            truthy (_extract_records_from_response data) = true →
            pages = [_extract_records_from_response data].
Proof.
  unfold paginate_offset. destruct fuel as [|fuel].
  { exists false, w. split; [reflexivity|]. exists 0%nat, [].
    rewrite app_nil_r. repeat split; simpl; try lia; try congruence. }
  simpl. unfold_monad. rewrite offset_step_unfold. simpl.
  destruct (offset_prepare_spec limit (mkOffset 0 0 kwargs) w)
    as (params & w1 & Hprep & _ & _ & Hs1 & Hy1 & _).
  rewrite Hprep.
  destruct (fetch serve config endpoint params w1) as [fetched w2] eqn:Hfetch.
  destruct (fetch_frame _ _ _ _ _ _ _ Hfetch) as (n & Hn & _ & Hy2 & Hs2).
  assert (Hsent : length (sent w2) = (length (sent w) + n)%nat).
  { rewrite Hs2, Hs1, length_app, length_replicate. reflexivity. }
  destruct fetched as [data|e].
  2:{ exists true, w2. split; [reflexivity|]. exists n, [].
      rewrite app_nil_r. repeat split; simpl; try lia; congruence. }
  rewrite offset_page_spec.
  destruct (truthy (_extract_records_from_response data)) eqn:Htruthy.
  2:{ exists true, w2. split; [reflexivity|]. exists n, [].
      rewrite app_nil_r. repeat split; simpl; try lia; congruence. }
  set (records := _extract_records_from_response data) in *.
  assert (Hfin : ∃ n0 pages,
    (n0 ≤ 3)%nat
    ∧ length (sent (yield_ records w2).2) = (length (sent w) + n0)%nat
    ∧ yielded (yield_ records w2).2 = yielded w ++ pages
    ∧ (length pages ≤ 1)%nat
    ∧ ∀ params0 w0 data0 w3,
        S fuel ≠ 0%nat →
        (Ok params, w1) = (Ok params0, w0) →
        fetch serve config endpoint params0 w0 = (Ok data0, w3) →
        truthy (_extract_records_from_response data0) = true →
        pages = [_extract_records_from_response data0]).
  { exists n, [records]. simpl. rewrite Hy2, Hy1.
    repeat split; try lia; try exact Hsent.
    intros ? ? ? ? _ Hp Hf _. injection Hp as <- <-.
    rewrite Hfetch in Hf. injection Hf as <- <-. reflexivity. }
  destruct (sized records) as [len|].
  2:{ exists true, (yield_ records w2).2. split; [reflexivity|].
      exact Hfin. }
  case_bool_decide.
  { exists true, (yield_ records w2).2. split; [reflexivity|].
    exact Hfin. }
  destruct fuel as [|fuel]; simpl.
  { exists false, (yield_ records w2).2. split; [reflexivity|].
    exact Hfin. }
  unfold_monad. rewrite offset_step_unfold. simpl.
  exists true, (yield_ records w2).2. split; [reflexivity|].
  exact Hfin.
Qed.

(** The rule of one iteration of [paginate_offset]. *)
Lemma offset_step_rule {B : Type} (serve : B → Request → result Response * B)
    (config : ConnectorConfig) (endpoint : string) (limit : Z)
    (max_pages : option Z) (st : offset_state) (w : World B)
    (params : loc) (w1 : World B) (fetched : result json) (w2 : World B) :
  max_pages_reached max_pages (os_page st) = false →
  offset_prepare limit st w = (Ok params, w1) →
  fetch serve config endpoint params w1 = (fetched, w2) →
  ∃ c w',
    paginate_offset_step serve config endpoint limit max_pages st w
    = (Ok c, w')
    ∧ (c = Break ↔
         offset_stop_condition limit max_pages (os_page st) fetched
         ∨ (∃ e, fetched = Raise e)
         ∨ (∃ data, fetched = Ok data
              ∧ sized (_extract_records_from_response data) = None))
    ∧ (c ≠ Break →
         c = Continue (mkOffset (os_offset st + limit) (os_page st + 1)
                         (Some params)))
    ∧ yielded w'
      = yielded w
        ++ match fetched with
           | Ok data =>
               if truthy (_extract_records_from_response data)
               then [_extract_records_from_response data] else []
           | Raise _ => []
           end
    ∧ ∃ n, (n ≤ 3)%nat ∧ length (sent w') = (length (sent w) + n)%nat.
Proof.
  intros Hcut Hprep Hfetch.
  rewrite offset_step_unfold, Hcut, Hprep, Hfetch.
  destruct (offset_prepare_spec limit st w)
    as (params' & w1' & Hprep' & _ & _ & Hs1 & Hy1 & _).
  rewrite Hprep in Hprep'. injection Hprep' as <- <-.
  destruct (fetch_frame _ _ _ _ _ _ _ Hfetch) as (n & Hn & _ & Hy2 & Hs2).
  assert (Hsent : ∀ w' : World B, sent w' = sent w2 →
            ∃ n, (n ≤ 3)%nat ∧ length (sent w') = (length (sent w) + n)%nat).
  { intros w' ->. exists n. split; [exact Hn|].
    rewrite Hs2, Hs1, length_app, length_replicate. reflexivity. }
  unfold offset_stop_condition. rewrite Hcut.
  destruct fetched as [data|e].
  - rewrite offset_page_spec.
    destruct (truthy (_extract_records_from_response data)) eqn:Htruthy.
    + destruct (sized (_extract_records_from_response data)) as [len|] eqn:Hlen.
      * case_bool_decide as Hshort.
        -- exists Break, (yield_ (_extract_records_from_response data) w2).2. split; [reflexivity|].
           split; [|split; [congruence|split]].
           ++ split; [intros _|reflexivity]. left. right. exists data.
              split; [reflexivity|]. right. exists len. split; auto.
           ++ simpl. congruence.
           ++ apply Hsent. reflexivity.
        -- eexists (Continue _), (yield_ (_extract_records_from_response data) w2).2.
           split; [reflexivity|]. split; [|split; [reflexivity|split]].
           ++ split; [discriminate|].
              intros [[Habs|(d & Hd & Hstop)]|[[e He]|(d & Hd & Hnone)]];
                try discriminate.
              ** injection Hd as <-.
                 destruct Hstop as [Hempty|(len' & Hl & Hlt)];
                   [congruence|].
                 rewrite Hl in Hlen. injection Hlen as <-. lia.
              ** injection Hd as <-. congruence.
           ++ simpl. congruence.
           ++ apply Hsent. reflexivity.
      * exists Break, (yield_ (_extract_records_from_response data) w2).2. split; [reflexivity|].
        split; [|split; [congruence|split]].
        -- split; [intros _|reflexivity]. right. right. exists data.
           split; [reflexivity|exact Hlen].
        -- simpl. congruence.
        -- apply Hsent. reflexivity.
    + exists Break, w2. split; [reflexivity|].
      split; [|split; [congruence|split]].
      * split; [intros _|reflexivity]. left. right. exists data.
        split; [reflexivity|]. left. exact Htruthy.
      * rewrite app_nil_r. congruence.
      * apply Hsent. reflexivity.
  - exists Break, w2. split; [reflexivity|].
    split; [|split; [congruence|split]].
    + split; [intros _|reflexivity]. right. left. exists e. reflexivity.
    + rewrite app_nil_r. congruence.
    + apply Hsent. reflexivity.
Qed.

(** With a quota of at least one call every attempt reaches the service:
    it sends exactly one request. *)
Lemma make_request_attempt_sends_one {B : Type}
    (serve : B → Request → result Response * B) (config : ConnectorConfig)
    (method url : string) (params : option dict) (w w' : World B)
    (r : result Response) :
  1 ≤ rate_limit_calls config →
  _make_request_attempt serve config method url params w = (r, w') →
  sends (mkRequest method url params (timeout config)) 1 w w'.
Proof.
  intros Hq.
  destruct (rate_limit_check_step config w Hq)
    as (w0 & Hlim & _ & _ & _ & _ & _ & Hs & Hh & Hy).
  unfold _make_request_attempt. unfold_monad. rewrite Hlim.
  destruct (session_request serve _ w0) as [r1 w1] eqn:Hreq.
  apply session_request_frame in Hreq as [(Hh1 & Hy1 & Hs1) _].
  assert (Hsent : sends (mkRequest method url params (timeout config)) 1 w w1).
  { repeat split; congruence. }
  destruct r1 as [response|e].
  - unfold raise_for_status. unfold_monad.
    case_bool_decide; intros [= <- <-]; exact Hsent.
  - destruct (RequestException e); intros [= <- <-]; exact Hsent.
Qed.

(** So [get] sends one, two or three requests. *)
Lemma get_sends_some {B : Type} (serve : B → Request → result Response * B)
    (config : ConnectorConfig) (endpoint : string) (params : option dict)
    (w w' : World B) (r : result json) :
  1 ≤ rate_limit_calls config →
  get serve config endpoint params w = (r, w') →
  ∃ n, (1 ≤ n ≤ 3)%nat
    ∧ sends (mkRequest "GET" (build_url config endpoint) params
               (timeout config)) n w w'.
Proof.
  intros Hq. unfold get. unfold_monad.
  rewrite make_request_three_attempts.
  set (rq := mkRequest "GET" (build_url config endpoint) params
               (timeout config)).
  set (attempt := _make_request_attempt serve config "GET"
                    (build_url config endpoint) params).
  assert (Hone : ∀ w0 w1 r0, attempt w0 = (r0, w1) → sends rq 1 w0 w1).
  { intros w0 w1 r0. apply make_request_attempt_sends_one. exact Hq. }
  assert (Hsleep : ∀ w0 : World B, sends rq 0 w0 (time_sleep 2 w0).2).
  { intros w0. repeat split. simpl. rewrite app_nil_r. reflexivity. }
  assert (Hjson : ∀ (n : nat) response w1 r1 w2,
            (1 ≤ n ≤ 3)%nat → sends rq n w w1 →
            response_json response w1 = (r1, w2) →
            ∃ n, (1 ≤ n ≤ 3)%nat ∧ sends rq n w w2).
  { intros n response w1 r1 w2 Hn Hs Hj.
    apply response_json_frame in Hj as ->. exists n. split; assumption. }
  destruct (attempt w) as [[response|e1] w1] eqn:H1.
  { intros Hj. exact (Hjson 1%nat _ _ _ _ ltac:(lia) (Hone _ _ _ H1) Hj). }
  pose proof (sends_trans _ _ _ _ _ _ (Hone _ _ _ H1) (Hsleep w1)) as Hs1.
  destruct (attempt (time_sleep 2 w1).2) as [[response|e2] w2] eqn:H2.
  { intros Hj.
    exact (Hjson (1 + 0 + 1)%nat _ _ _ _ ltac:(lia)
             (sends_trans _ _ _ _ _ _ Hs1 (Hone _ _ _ H2)) Hj). }
  pose proof (sends_trans _ _ _ _ _ _
                (sends_trans _ _ _ _ _ _ Hs1 (Hone _ _ _ H2)) (Hsleep w2))
    as Hs2.
  destruct (attempt (time_sleep 2 w2).2) as [[response|e3] w3] eqn:H3.
  { intros Hj.
    exact (Hjson (1 + 0 + 1 + 0 + 1)%nat _ _ _ _ ltac:(lia)
             (sends_trans _ _ _ _ _ _ Hs2 (Hone _ _ _ H3)) Hj). }
  intros [= <- <-]. exists (1 + 0 + 1 + 0 + 1)%nat. split; [lia|].
  exact (sends_trans _ _ _ _ _ _ Hs2 (Hone _ _ _ H3)).
Qed.

(** What an iteration of [paginate_offset] past the cutoff sends: the
    mapping with [limit] and the iteration's [offset] written into it,
    with each request of the fetch. *)
Lemma offset_step_sends {B : Type} (serve : B → Request → result Response * B)
    (config : ConnectorConfig) (endpoint : string) (limit : Z)
    (max_pages : option Z) (st : offset_state) (w : World B)
    (params : loc) (w1 : World B) (fetched : result json) (w2 : World B) :
  max_pages_reached max_pages (os_page st) = false →
  offset_prepare limit st w = (Ok params, w1) →
  fetch serve config endpoint params w1 = (fetched, w2) →
  let sent_params := <["offset" := JNum (os_offset st)]>
                       (<["limit" := JNum limit]>
                          (default ∅ (heap w !! params))) in
  heap w1 !! params = Some sent_params
  ∧ ∃ c w' n,
      paginate_offset_step serve config endpoint limit max_pages st w
      = (Ok c, w')
      ∧ heap w' !! params = Some sent_params
      ∧ (n ≤ 3)%nat
      ∧ (1 ≤ rate_limit_calls config → (1 ≤ n)%nat)
      ∧ sent w' = sent w
          ++ replicate n
               (mkRequest "GET" (build_url config endpoint)
                  (Some sent_params) (timeout config)).
Proof.
  intros Hcut Hprep Hfetch sent_params.
  destruct (offset_prepare_spec limit st w)
    as (params' & w1' & Hprep' & Hh1 & _ & Hs1 & _).
  rewrite Hprep in Hprep'. injection Hprep' as <- <-.
  assert (Hmap : heap w1 !! params = Some sent_params).
  { rewrite Hh1. apply lookup_insert_eq. }
  split; [exact Hmap|].
  assert (Hreq : ∃ n, (n ≤ 3)%nat
            ∧ (1 ≤ rate_limit_calls config → (1 ≤ n)%nat)
            ∧ heap w2 = heap w1
            ∧ sent w2 = sent w
                ++ replicate n
                     (mkRequest "GET" (build_url config endpoint)
                        (Some sent_params) (timeout config))).
  { destruct (decide (1 ≤ rate_limit_calls config)) as [Hq|Hq].
    - unfold fetch, deref in Hfetch. unfold_monad.
      rewrite Hmap in Hfetch. simpl in Hfetch.
      destruct (get_sends_some _ _ _ _ _ _ _ Hq Hfetch)
        as (n & Hn & Hh2 & _ & Hs2).
      exists n. split; [lia|]. split; [intros _; lia|].
      split; [exact Hh2|]. rewrite Hs2, Hs1. reflexivity.
    - destruct (fetch_frame _ _ _ _ _ _ _ Hfetch) as (n & Hn & Hh2 & _ & Hs2).
      rewrite Hmap in Hs2. simpl in Hs2.
      exists n. split; [exact Hn|]. split; [intros; lia|].
      split; [exact Hh2|]. rewrite Hs2, Hs1. reflexivity. }
  destruct Hreq as (n & Hn & Hsome & Hh2 & Hs2).
  rewrite offset_step_unfold, Hcut, Hprep, Hfetch.
  destruct fetched as [data|e].
  - rewrite offset_page_spec.
    destruct (truthy _); [destruct (sized _) as [len|];
                          [case_bool_decide|]|];
      eexists _, _, n; (split; [reflexivity|]); simpl; rewrite Hh2;
      repeat split; assumption.
  - exists Break, w2, n. rewrite Hh2. repeat split; assumption.
Qed.

(** Writing [limit] and a new [offset] over an earlier pair. *)
Lemma limit_offset_again (limit o1 o2 : Z) (p : dict) :
  <["offset" := JNum o2]>
    (<["limit" := JNum limit]>
       (<["offset" := JNum o1]> (<["limit" := JNum limit]> p)))
  = <["offset" := JNum o2]> (<["limit" := JNum limit]> p).
Proof.
  apply map_eq. intros key. rewrite !lookup_insert.
  repeat case_decide; reflexivity.
Qed.

(** An iteration against a scripted answer with records in it, with what
    it sends and leaves in the mapping. *)
Lemma offset_step_script_sends (config : ConnectorConfig) (endpoint : string)
    (limit : Z) (max_pages : option Z) (st : offset_state)
    (w : World (list (result Response))) (data : json)
    (rest : list (result Response)) :
  1 ≤ rate_limit_calls config →
  max_pages_reached max_pages (os_page st) = false →
  backend w = ok_json data :: rest →
  truthy (_extract_records_from_response data) = true →
  ∃ params w',
    let sent_params := <["offset" := JNum (os_offset st)]>
                         (<["limit" := JNum limit]>
                            (default ∅ (heap w !! params))) in
    paginate_offset_step serve_script config endpoint limit max_pages st w
    = (Ok match sized (_extract_records_from_response data) with
          | Some n =>
              if bool_decide (n < limit) then Break
              else Continue (mkOffset (os_offset st + limit)
                               (os_page st + 1) (Some params))
          | None => Break
          end, w')
    ∧ yielded w' = yielded w ++ [_extract_records_from_response data]
    ∧ backend w' = rest
    ∧ sent w' = sent w ++ [mkRequest "GET" (build_url config endpoint)
                             (Some sent_params) (timeout config)]
    ∧ heap w' !! params = Some sent_params
    ∧ match os_kwargs st with
      | Some l => params = l
      | None => heap w !! params = None
      end.
Proof.
  intros Hq Hcut Hscript Htruthy.
  rewrite offset_step_unfold, Hcut.
  destruct (offset_prepare_spec limit st w)
    as (params & w1 & -> & Hh1 & Hkw & Hs1 & Hy1 & Hb1).
  unfold fetch, deref. unfold_monad.
  edestruct (get_first_attempt serve_script config endpoint
               (Some (default ∅ (heap w1 !! params))) w1
               (mkResponse 200 (Some data)) rest data Hq)
    as (w2 & -> & (Hh2 & Hy2 & Hs2) & Hb2).
  { rewrite Hb1, Hscript. reflexivity. }
  { simpl. lia. }
  { reflexivity. }
  rewrite offset_page_spec, Htruthy.
  exists params, (yield_ (_extract_records_from_response data) w2).2.
  split.
  - destruct (sized _) as [n|]; [case_bool_decide|]; reflexivity.
  - simpl. rewrite Hy2, Hy1, Hb2, Hs2, Hs1, Hh2, Hh1, lookup_insert_eq.
    repeat split. exact Hkw.
Qed.

(** Three scripted pages, two full and a short one. *)
Lemma offset_three_pages_sent (config : ConnectorConfig) (endpoint : string)
    (limit : Z) (max_pages : option Z) (kwargs : option loc)
    (p1 p2 p3 : list json) (rest : list (result Response))
    (w : World (list (result Response))) (fuel : nat) :
  1 ≤ rate_limit_calls config →
  (∀ page, 0 ≤ page ≤ 2 → max_pages_reached max_pages page = false) →
  Z.of_nat (length p1) = limit →
  Z.of_nat (length p2) = limit →
  0 < Z.of_nat (length p3) < limit →
  backend w = ok_json (JList p1) :: ok_json (JList p2)
              :: ok_json (JList p3) :: rest →
  (3 ≤ fuel)%nat →
  let p0 := match kwargs with
            | Some l => default ∅ (heap w !! l)
            | None => ∅
            end in
  let request offset :=
    mkRequest "GET" (build_url config endpoint)
      (Some (<["offset" := JNum offset]> (<["limit" := JNum limit]> p0)))
      (timeout config) in
  ∃ w', paginate_offset serve_script config fuel endpoint limit max_pages
          kwargs w = (Ok true, w')
    ∧ yielded w' = yielded w ++ [JList p1; JList p2; JList p3]
    ∧ sent w' = sent w ++ [request 0; request limit; request (limit + limit)]
    ∧ backend w' = rest.
Proof.
  intros Hq Hcut H1 H2 H3 Hscript Hfuel p0 request.
  destruct fuel as [|[|[|fuel]]]; try lia.
  unfold paginate_offset. simpl. unfold_monad.
  edestruct (offset_step_script_sends config endpoint limit max_pages
               (mkOffset 0 0 kwargs) w (JList p1)) as
    (l1 & w1 & -> & Hy1 & Hb1 & Hs1 & Hm1 & Hk1);
    [exact Hq|apply Hcut; simpl; lia|exact Hscript|apply truthy_list; lia|].
  simpl. simpl in Hs1, Hm1, Hk1. rewrite bool_decide_eq_false_2 by lia.
  assert (Hp0 : default ∅ (heap w !! l1) = p0).
  { unfold p0. destruct kwargs as [l|]; rewrite Hk1; reflexivity. }
  rewrite Hp0 in Hs1, Hm1.
  edestruct (offset_step_script_sends config endpoint limit max_pages
               (mkOffset (0 + limit) (0 + 1) (Some l1)) w1 (JList p2)) as
    (l2 & w2 & -> & Hy2 & Hb2 & Hs2 & Hm2 & Hk2);
    [exact Hq|apply Hcut; simpl; lia|exact Hb1|apply truthy_list; lia|].
  simpl. simpl in Hs2, Hm2, Hk2. rewrite bool_decide_eq_false_2 by lia.
  subst l2. rewrite Hm1 in Hs2, Hm2. simpl in Hs2, Hm2.
  rewrite limit_offset_again in Hs2, Hm2.
  edestruct (offset_step_script_sends config endpoint limit max_pages
               (mkOffset (0 + limit + limit) (0 + 1 + 1) (Some l1)) w2
               (JList p3)) as
    (l3 & w3 & -> & Hy3 & Hb3 & Hs3 & Hm3 & Hk3);
    [exact Hq|apply Hcut; simpl; lia|exact Hb2|apply truthy_list; lia|].
  simpl. simpl in Hs3, Hm3, Hk3. rewrite bool_decide_eq_true_2 by lia.
  subst l3. rewrite Hm2 in Hs3. simpl in Hs3.
  rewrite limit_offset_again in Hs3.
  exists w3. split; [reflexivity|].
  simpl in *. rewrite Hy3, Hy2, Hy1, Hs3, Hs2, Hs1, <- !app_assoc.
  repeat split. exact Hb3.
Qed.

(** C4, as the code has it.  An iteration of [paginate_offset] that finds
    [max_pages] non-zero and reached ends the generator at once, with no
    request.  Any other iteration writes [limit] and its [offset] into the
    parameters and fetches: every request of the fetch, at most three and
    at least one when the quota is at least one call, carries the
    parameters with that [limit] and [offset].  It ends the generator
    exactly when the fetch raises or gives no records (no page is
    yielded), or the page it has yielded holds fewer than [limit] records
    or has no length; otherwise it goes on with [offset + limit] and
    [page + 1].  With [max_pages = 1] one fetch is made and at most one
    page is yielded, exactly one when that fetch returns records.
    Against a scripted service whose answers hold [limit], [limit] and
    fewer than [limit] records (100, 100 and 40 for [limit = 100])
    exactly these three pages are yielded, with exactly three requests,
    for the offsets [0], [limit] and [2 limit], and the generator is
    exhausted. *)
Theorem offset_paginator_stops {B : Type}
    (serve : B → Request → result Response * B) (config : ConnectorConfig)
    (endpoint : string) (limit : Z) :
  (∀ max_pages st w,
     max_pages_reached max_pages (os_page st) = true →
     paginate_offset_step serve config endpoint limit max_pages st w
     = (Ok Break, w))
  ∧ (∀ max_pages st w params w1 fetched w2,
       max_pages_reached max_pages (os_page st) = false →
       offset_prepare limit st w = (Ok params, w1) →
       fetch serve config endpoint params w1 = (fetched, w2) →
       let sent_params := <["offset" := JNum (os_offset st)]>
                            (<["limit" := JNum limit]>
                               (default ∅ (heap w !! params))) in
       ∃ c w' n,
         paginate_offset_step serve config endpoint limit max_pages st w
         = (Ok c, w')
         ∧ (c = Break ↔
              offset_stop_condition limit max_pages (os_page st) fetched
              ∨ (∃ e, fetched = Raise e)
              ∨ (∃ data, fetched = Ok data
                   ∧ sized (_extract_records_from_response data) = None))
         ∧ (c ≠ Break →
              c = Continue (mkOffset (os_offset st + limit) (os_page st + 1)
                              (Some params)))
         ∧ yielded w'
           = yielded w
             ++ match fetched with
                | Ok data =>
                    if truthy (_extract_records_from_response data)
                    then [_extract_records_from_response data] else []
                | Raise _ => []
                end
         ∧ heap w' !! params = Some sent_params
         ∧ (n ≤ 3)%nat
         ∧ (1 ≤ rate_limit_calls config → (1 ≤ n)%nat)
         ∧ sent w' = sent w
             ++ replicate n
                  (mkRequest "GET" (build_url config endpoint)
                     (Some sent_params) (timeout config)))
  ∧ (∀ kwargs w fuel,
       ∃ done w',
         paginate_offset serve config fuel endpoint limit (Some 1) kwargs w
         = (Ok done, w')
         ∧ ∃ n pages,
             (n ≤ 3)%nat ∧ length (sent w') = (length (sent w) + n)%nat
             ∧ yielded w' = yielded w ++ pages ∧ (length pages ≤ 1)%nat
             ∧ ∀ params w1 data w2,
                 fuel ≠ 0%nat →
                 offset_prepare limit (mkOffset 0 0 kwargs) w
                 = (Ok params, w1) →
                 fetch serve config endpoint params w1 = (Ok data, w2) →
                 truthy (_extract_records_from_response data) = true →
                 pages = [_extract_records_from_response data])
  ∧ (∀ max_pages kwargs p1 p2 p3 rest
       (w : World (list (result Response))) fuel,
       1 ≤ rate_limit_calls config →
       (∀ page, 0 ≤ page ≤ 2 → max_pages_reached max_pages page = false) →
       Z.of_nat (length p1) = limit →
       Z.of_nat (length p2) = limit →
       0 < Z.of_nat (length p3) < limit →
       backend w = ok_json (JList p1) :: ok_json (JList p2)
                   :: ok_json (JList p3) :: rest →
       (3 ≤ fuel)%nat →
       let p0 := match kwargs with
                 | Some l => default ∅ (heap w !! l)
                 | None => ∅
                 end in
       let request offset :=
         mkRequest "GET" (build_url config endpoint)
           (Some (<["offset" := JNum offset]>
                    (<["limit" := JNum limit]> p0)))
           (timeout config) in
       ∃ w', paginate_offset serve_script config fuel endpoint limit
               max_pages kwargs w = (Ok true, w')
         ∧ yielded w' = yielded w ++ [JList p1; JList p2; JList p3]
         ∧ sent w' = sent w
             ++ [request 0; request limit; request (limit + limit)]
         ∧ backend w' = rest).
Proof.
  split; [|split; [|split]].
  - intros max_pages st w Hcut. rewrite offset_step_unfold, Hcut. reflexivity.
  - intros max_pages st w params w1 fetched w2 Hcut Hprep Hfetch sent_params.
    destruct (offset_step_rule serve config endpoint limit max_pages st w
                params w1 fetched w2 Hcut Hprep Hfetch)
      as (c & w' & Hstep & Hiff & Hnext & Hy & _).
    destruct (offset_step_sends serve config endpoint limit max_pages st w
                params w1 fetched w2 Hcut Hprep Hfetch)
      as (_ & c' & w'' & n & Hstep' & Hmap & Hn & Hsome & Hs).
    rewrite Hstep in Hstep'. injection Hstep' as <- <-.
    exists c, w', n. repeat split; try assumption; apply Hiff.
  - intros kwargs w fuel. apply offset_one_page.
  - intros max_pages kwargs p1 p2 p3 rest w fuel.
    apply offset_three_pages_sent.
Qed.

(** Pages of 100, 100 and 40 records under [limit = 100]. *)
Lemma offset_paginator_stops_witness :
  let config := default_config "http://h" in
  let p1 := records_from 0 100 in
  let p2 := records_from 100 100 in
  let p3 := records_from 200 40 in
  let w := init_world 0 []
             [ok_json (JList p1); ok_json (JList p2); ok_json (JList p3)]
             ∅ in
  ∃ w', paginate_offset serve_script config 3 "/items" 100 None None w
        = (Ok true, w')
    ∧ yielded w' = yielded w ++ [JList p1; JList p2; JList p3]
    ∧ map req_params (sent w')
      = [Some {[ "limit" := JNum 100; "offset" := JNum 0 ]};
         Some {[ "limit" := JNum 100; "offset" := JNum 100 ]};
         Some {[ "limit" := JNum 100; "offset" := JNum 200 ]}]
    ∧ backend w' = [].
Proof.
  intros config p1 p2 p3 w.
  destruct (proj2 (proj2 (proj2
              (offset_paginator_stops serve_script config "/items" 100)))
              None None p1 p2 p3 [] w 3%nat)
    as (w' & Hrun & Hy & Hs & Hb).
  - simpl. lia.
  - intros page _. reflexivity.
  - vm_compute. reflexivity.
  - vm_compute. reflexivity.
  - vm_compute. split; reflexivity.
  - reflexivity.
  - lia.
  - exists w'. split; [exact Hrun|]. split; [exact Hy|].
    split; [|exact Hb]. rewrite Hs. vm_compute. reflexivity.
Defined.

(** C4, as the specification has it, fails.  When the service refuses
    every connection the generator ends although [max_pages] is not set
    and no fetch has returned an empty or a short page; and with
    [max_pages = 1] a service that has no records gets no page out of the
    paginator, not one. *)
Lemma offset_paginator_stops_otherwise :
  let config := default_config "http://h" in
  let w := init_world 0 [] [] ∅ in
  let st := mkOffset 0 0 None in
  let p := offset_prepare 100 st w in
  let f := fetch serve_script config "/items" 1%positive p.2 in
  (p.1 = Ok 1%positive
   ∧ (paginate_offset_step serve_script config "/items" 100 None st w).1
     = Ok Break
   ∧ ¬ offset_stop_condition 100 None (os_page st) f.1)
  ∧ (let r := paginate_offset (serve_slice []) config 5 "/items" 100
                (Some 1) None (init_world 0 [] tt ∅) in
     r.1 = Ok true ∧ yielded r.2 = []).
Proof.
  intros config w st p f. split; [split; [|split]|].
  - vm_compute. reflexivity.
  - vm_compute. reflexivity.
  - assert (Hf : f.1 = Raise (ConnectionError 0)) by (vm_compute; reflexivity).
    rewrite Hf. intros [Hcut|(data & Hdata & _)]; discriminate.
  - vm_compute. split; reflexivity.
Qed.

Example offset_end_to_end :
  let config := default_config "http://h" in
  let r := paginate_offset (serve_slice (records_from 1 3)) config 5
             "/items" 2 None None (init_world 0 [] tt ∅) in
  r.1 = Ok true
  ∧ yielded r.2 = [JList (records_from 1 2); JList (records_from 3 1)]
  ∧ map req_params (sent r.2)
    = [Some {[ "limit" := JNum 2; "offset" := JNum 0 ]};
       Some {[ "limit" := JNum 2; "offset" := JNum 2 ]}].
Proof. vm_compute. repeat split. Qed.

(** ** The cursor paginator *)

(** What the mapping holds when an iteration of [paginate_cursor]
    fetches: the cursor under [cursor_param] when one is held, and
    otherwise what it held before. *)
Lemma cursor_prepare_content {B : Type} (cursor_param : string)
    (st : cursor_state) (w w1 : World B) (params : loc) :
  cursor_prepare cursor_param st w = (Ok params, w1) →
  default ∅ (heap w1 !! params)
  = (if truthy (cs_cursor st)
     then <[cursor_param := cs_cursor st]> (default ∅ (heap w !! params))
     else default ∅ (heap w !! params))
  ∧ match cs_kwargs st with
    | Some l => params = l
    | None => heap w !! params = None
    end.
Proof.
  intros Hprep.
  destruct (cursor_prepare_spec cursor_param st w)
    as (params' & w1' & Hprep' & Hheap & Hkw & _).
  rewrite Hprep in Hprep'. injection Hprep' as <- <-.
  split; [|exact Hkw]. rewrite Hheap.
  destruct (truthy (cs_cursor st)).
  - rewrite lookup_insert_eq. reflexivity.
  - destruct (cs_kwargs st) as [l|]; [reflexivity|].
    rewrite lookup_insert_eq, Hkw. reflexivity.
Qed.

Lemma cursor_step_script (config : ConnectorConfig)
    (endpoint cursor_param cursor_path : string) (max_pages : option Z)
    (st : cursor_state) (w : World (list (result Response))) (data : json)
    (rest : list (result Response)) :
  1 ≤ rate_limit_calls config →
  max_pages_reached max_pages (cs_page st) = false →
  backend w = ok_json data :: rest →
  truthy (_extract_records_from_response data) = true →
  ∃ params w',
    paginate_cursor_step serve_script config endpoint cursor_param
      cursor_path max_pages st w
    = (Ok (if truthy (_get_nested_value data cursor_path)
           then Continue (mkCursor (_get_nested_value data cursor_path)
                            (cs_page st + 1) (Some params))
           else Break), w')
    ∧ yielded w' = yielded w ++ [_extract_records_from_response data]
    ∧ backend w' = rest
    ∧ sent w' = sent w ++ [mkRequest "GET" (build_url config endpoint)
                             (Some (default ∅ (heap w' !! params)))
                             (timeout config)]
    ∧ default ∅ (heap w' !! params)
      = (if truthy (cs_cursor st)
         then <[cursor_param := cs_cursor st]>
                (default ∅ (heap w !! params))
         else default ∅ (heap w !! params))
    ∧ match cs_kwargs st with
      | Some l => params = l
      | None => heap w !! params = None
      end.
Proof.
  intros Hq Hcut Hscript Htruthy.
  rewrite cursor_step_unfold, Hcut.
  destruct (cursor_prepare_spec cursor_param st w)
    as (params & w1 & Hprep & _ & _ & Hs1 & Hy1 & Hb1).
  rewrite Hprep.
  destruct (cursor_prepare_content _ _ _ _ _ Hprep) as [Hcontent Hkw].
  unfold fetch, deref. unfold_monad.
  edestruct (get_first_attempt serve_script config endpoint
               (Some (default ∅ (heap w1 !! params))) w1
               (mkResponse 200 (Some data)) rest data Hq)
    as (w2 & -> & (Hh2 & Hy2 & Hs2) & Hb2).
  { rewrite Hb1, Hscript. reflexivity. }
  { simpl. lia. }
  { reflexivity. }
  rewrite cursor_page_spec, Htruthy.
  exists params, (yield_ (_extract_records_from_response data) w2).2.
  split.
  - destruct (truthy (_get_nested_value data cursor_path)); reflexivity.
  - simpl. rewrite Hy2, Hy1, Hb2, Hs2, Hs1, Hh2, Hcontent.
    repeat split. exact Hkw.
Qed.

(** Three scripted answers whose cursors are [c1], [c2] and none. *)
Lemma cursor_three_pages (config : ConnectorConfig)
    (endpoint cursor_param cursor_path : string) (max_pages : option Z)
    (kwargs : option loc) (d1 d2 d3 : json) (rest : list (result Response))
    (w : World (list (result Response))) (fuel : nat) :
  1 ≤ rate_limit_calls config →
  (∀ page, 0 ≤ page ≤ 2 → max_pages_reached max_pages page = false) →
  truthy (_extract_records_from_response d1) = true →
  truthy (_extract_records_from_response d2) = true →
  truthy (_extract_records_from_response d3) = true →
  truthy (_get_nested_value d1 cursor_path) = true →
  truthy (_get_nested_value d2 cursor_path) = true →
  truthy (_get_nested_value d3 cursor_path) = false →
  backend w = ok_json d1 :: ok_json d2 :: ok_json d3 :: rest →
  (3 ≤ fuel)%nat →
  let p0 := match kwargs with
            | Some l => default ∅ (heap w !! l)
            | None => ∅
            end in
  let request p := mkRequest "GET" (build_url config endpoint) (Some p)
                     (timeout config) in
  ∃ w', paginate_cursor serve_script config fuel endpoint cursor_param
          cursor_path max_pages kwargs w = (Ok true, w')
    ∧ yielded w' = yielded w ++ [_extract_records_from_response d1;
                                 _extract_records_from_response d2;
                                 _extract_records_from_response d3]
    ∧ sent w' = sent w
        ++ [request p0;
            request (<[cursor_param := _get_nested_value d1 cursor_path]> p0);
            request (<[cursor_param := _get_nested_value d2 cursor_path]> p0)]
    ∧ backend w' = rest.
Proof.
  intros Hq Hcut Hr1 Hr2 Hr3 Hc1 Hc2 Hc3 Hscript Hfuel p0 request.
  destruct fuel as [|[|[|fuel]]]; try lia.
  unfold paginate_cursor. simpl. unfold_monad.
  edestruct (cursor_step_script config endpoint cursor_param cursor_path
               max_pages (mkCursor JNull 0 kwargs) w d1) as
    (l1 & w1 & -> & Hy1 & Hb1 & Hs1 & Hm1 & Hk1);
    [exact Hq|apply Hcut; simpl; lia|exact Hscript|exact Hr1|].
  rewrite Hc1. simpl. simpl in Hm1, Hk1.
  assert (Hp0 : default ∅ (heap w1 !! l1) = p0).
  { rewrite Hm1. unfold p0. destruct kwargs as [l|].
    - rewrite Hk1. reflexivity.
    - rewrite Hk1. reflexivity. }
  edestruct (cursor_step_script config endpoint cursor_param cursor_path
               max_pages
               (mkCursor (_get_nested_value d1 cursor_path) (0 + 1)
                  (Some l1)) w1 d2) as
    (l2 & w2 & -> & Hy2 & Hb2 & Hs2 & Hm2 & Hk2);
    [exact Hq|apply Hcut; simpl; lia|exact Hb1|exact Hr2|].
  rewrite Hc2. simpl. simpl in Hm2, Hk2. subst l2. rewrite Hc1, Hp0 in Hm2.
  edestruct (cursor_step_script config endpoint cursor_param cursor_path
               max_pages
               (mkCursor (_get_nested_value d2 cursor_path) (0 + 1 + 1)
                  (Some l1)) w2 d3) as
    (l3 & w3 & -> & Hy3 & Hb3 & Hs3 & Hm3 & Hk3);
    [exact Hq|apply Hcut; simpl; lia|exact Hb2|exact Hr3|].
  rewrite Hc3. simpl. simpl in Hm3, Hk3. subst l3.
  rewrite Hc2, Hm2, insert_insert_eq in Hm3.
  exists w3. split; [reflexivity|].
  rewrite Hy3, Hy2, Hy1, Hs3, Hs2, Hs1, Hm3, Hm2, Hp0, <- !app_assoc.
  repeat split. exact Hb3.
Qed.

(** C5, as the code has it.  The first iteration of [paginate_cursor]
    fetches with the caller's parameters as they are (an empty mapping
    when there are none): no cursor is added, so that the first request
    carries a cursor parameter only when the caller's own mapping holds
    one.  An iteration whose fetch returns records
    yields them; it then ends the generator when the value at
    [cursor_path] is missing or falsy, and otherwise goes on holding that
    value as the cursor.  Against a scripted service whose three answers
    carry the cursors [c1], [c2] and none, exactly three pages are
    yielded and exactly three requests are sent, the second with [c1] and
    the third with [c2] under [cursor_param]; the rest of the script is
    never asked for. *)
Theorem cursor_paginator_follows_cursor {B : Type}
    (serve : B → Request → result Response * B) (config : ConnectorConfig)
    (endpoint cursor_param cursor_path : string) (max_pages : option Z) :
  (∀ kwargs (w : World B) params w1 fetched w2,
     cursor_prepare cursor_param (mkCursor JNull 0 kwargs) w
     = (Ok params, w1) →
     fetch serve config endpoint params w1 = (fetched, w2) →
     let p0 := match kwargs with
               | Some l => default ∅ (heap w !! l)
               | None => ∅
               end in
     let first := mkRequest "GET" (build_url config endpoint) (Some p0)
                    (timeout config) in
     ∃ n, (n ≤ 3)%nat
       ∧ sent w2 = sent w ++ replicate n first
       ∧ (p0 !! cursor_param = None →
          no_cursor_parameter cursor_param first))
  ∧ (∀ st (w : World B) params w1 data w2,
       max_pages_reached max_pages (cs_page st) = false →
       cursor_prepare cursor_param st w = (Ok params, w1) →
       fetch serve config endpoint params w1 = (Ok data, w2) →
       truthy (_extract_records_from_response data) = true →
       ∃ c w',
         paginate_cursor_step serve config endpoint cursor_param cursor_path
           max_pages st w = (Ok c, w')
         ∧ yielded w' = yielded w ++ [_extract_records_from_response data]
         ∧ sent w' = sent w2
         ∧ (truthy (_get_nested_value data cursor_path) = false →
              c = Break)
         ∧ (truthy (_get_nested_value data cursor_path) = true →
              c = Continue (mkCursor (_get_nested_value data cursor_path)
                              (cs_page st + 1) (Some params))))
  ∧ (∀ kwargs d1 d2 d3 rest (w : World (list (result Response))) fuel,
       1 ≤ rate_limit_calls config →
       (∀ page, 0 ≤ page ≤ 2 → max_pages_reached max_pages page = false) →
       truthy (_extract_records_from_response d1) = true →
       truthy (_extract_records_from_response d2) = true →
       truthy (_extract_records_from_response d3) = true →
       truthy (_get_nested_value d1 cursor_path) = true →
       truthy (_get_nested_value d2 cursor_path) = true →
       truthy (_get_nested_value d3 cursor_path) = false →
       backend w = ok_json d1 :: ok_json d2 :: ok_json d3 :: rest →
       (3 ≤ fuel)%nat →
       let p0 := match kwargs with
                 | Some l => default ∅ (heap w !! l)
                 | None => ∅
                 end in
       let request p := mkRequest "GET" (build_url config endpoint) (Some p)
                          (timeout config) in
       ∃ w', paginate_cursor serve_script config fuel endpoint cursor_param
               cursor_path max_pages kwargs w = (Ok true, w')
         ∧ yielded w' = yielded w ++ [_extract_records_from_response d1;
                                      _extract_records_from_response d2;
                                      _extract_records_from_response d3]
         ∧ sent w' = sent w
             ++ [request p0;
                 request (<[cursor_param
                            := _get_nested_value d1 cursor_path]> p0);
                 request (<[cursor_param
                            := _get_nested_value d2 cursor_path]> p0)]
         ∧ backend w' = rest).
Proof.
  split; [|split].
  - intros kwargs w params w1 fetched w2 Hprep Hfetch p0 first.
    destruct (cursor_prepare_content _ _ _ _ _ Hprep) as [Hcontent Hkw].
    destruct (cursor_prepare_spec cursor_param (mkCursor JNull 0 kwargs) w)
      as (params' & w1' & Hprep' & _ & _ & Hs1 & _).
    rewrite Hprep in Hprep'. injection Hprep' as <- <-.
    destruct (fetch_frame _ _ _ _ _ _ _ Hfetch) as (n & Hn & _ & _ & Hs2).
    exists n. split; [exact Hn|]. split.
    + rewrite Hs2, Hs1, Hcontent. unfold first, p0. simpl in *.
      destruct kwargs as [l|]; rewrite Hkw; reflexivity.
    + intros Hnone p [= <-]. exact Hnone.
  - intros st w params w1 data w2 Hcut Hprep Hfetch Htruthy.
    rewrite cursor_step_unfold, Hcut, Hprep, Hfetch, cursor_page_spec,
      Htruthy.
    destruct (cursor_prepare_spec cursor_param st w)
      as (params' & w1' & Hprep' & _ & _ & _ & Hy1 & _).
    rewrite Hprep in Hprep'. injection Hprep' as <- <-.
    destruct (fetch_frame _ _ _ _ _ _ _ Hfetch) as (n & _ & _ & Hy2 & _).
    destruct (truthy (_get_nested_value data cursor_path));
      eexists _, _; (split; [reflexivity|]); simpl; rewrite Hy2, Hy1;
      repeat split; congruence.
  - intros kwargs d1 d2 d3 rest w fuel. apply cursor_three_pages.
Qed.

(** Answers [{"items": [1], "next_cursor": "c1"}], the same with ["c2"],
    and [{"items": [3]}]. *)
Lemma cursor_paginator_follows_cursor_witness :
  let config := default_config "http://h" in
  let d1 := JDict {[ "items" := JList [JNum 1]; "next_cursor" := JStr "c1" ]} in
  let d2 := JDict {[ "items" := JList [JNum 2]; "next_cursor" := JStr "c2" ]} in
  let d3 := JDict {[ "items" := JList [JNum 3] ]} in
  let w := init_world 0 [] [ok_json d1; ok_json d2; ok_json d3; ok_json d1]
             ∅ in
  ∃ w', paginate_cursor serve_script config 10 "/items" "cursor"
          "next_cursor" None None w = (Ok true, w')
    ∧ yielded w' = [JList [JNum 1]; JList [JNum 2]; JList [JNum 3]]
    ∧ map req_params (sent w')
      = [Some ∅; Some {[ "cursor" := JStr "c1" ]};
         Some {[ "cursor" := JStr "c2" ]}]
    ∧ backend w' = [ok_json d1].
Proof.
  intros config d1 d2 d3 w.
  destruct (proj2 (proj2
              (cursor_paginator_follows_cursor serve_script config "/items"
                 "cursor" "next_cursor" None))
              None d1 d2 d3 [ok_json d1] w 10%nat)
    as (w' & Hrun & Hy & Hs & Hb);
    try reflexivity; try (simpl; lia).
  exists w'. split; [exact Hrun|]. split; [exact Hy|].
  split; [|exact Hb]. rewrite Hs. reflexivity.
Defined.

(** C5, as the specification has it, fails.  The caller's mapping holds
    an entry under [cursor_param]: the first request carries it, although
    the paginator holds no cursor yet. *)
Lemma cursor_sent_with_first_request :
  let config := default_config "http://h" in
  let p0 : dict := {[ "cursor" := JStr "old"; "q" := JStr "x" ]} in
  let w := init_world 0 [] [ok_json (JList [JNum 1])]
             {[ 1%positive := p0 ]} in
  let r := paginate_cursor serve_script config 5 "/items" "cursor"
             "next_cursor" None (Some 1%positive) w in
  r.1 = Ok true
  ∧ sent r.2 = [mkRequest "GET" "http://h/items" (Some p0) 30]
  ∧ p0 !! "cursor" = Some (JStr "old")
  ∧ ¬ (∀ rq, head (sent r.2) = Some rq → no_cursor_parameter "cursor" rq).
Proof.
  intros config p0 w r.
  assert (Hsent : sent r.2 = [mkRequest "GET" "http://h/items" (Some p0) 30])
    by (vm_compute; reflexivity).
  split; [vm_compute; reflexivity|]. split; [exact Hsent|].
  split; [reflexivity|].
  intros Hnone. rewrite Hsent in Hnone.
  specialize (Hnone _ eq_refl p0 eq_refl). discriminate Hnone.
Qed.

(** ** The page cutoff *)

Section Cutoff_proofs.
Context {B : Type}.
Variable serve : B → Request → result Response * B.
Variable config : ConnectorConfig.

Lemma offset_loop_zero (fuel : nat) (endpoint : string) (limit : Z) :
  ∀ (st : offset_state) (w : World B),
    paginate_offset_loop serve config fuel endpoint limit (Some 0) st w
    = paginate_offset_loop serve config fuel endpoint limit None st w.
Proof.
  induction fuel as [|fuel IH]; intros st w; [reflexivity|].
  simpl. unfold mbind, M_bind, bind.
  change (paginate_offset_step serve config endpoint limit (Some 0) st w)
    with (paginate_offset_step serve config endpoint limit None st w).
  destruct (paginate_offset_step serve config endpoint limit None st w)
    as [[[|st']|e] w1]; try reflexivity.
  apply IH.
Qed.

Lemma cursor_loop_zero (fuel : nat)
    (endpoint cursor_param cursor_path : string) :
  ∀ (st : cursor_state) (w : World B),
    paginate_cursor_loop serve config fuel endpoint cursor_param cursor_path
      (Some 0) st w
    = paginate_cursor_loop serve config fuel endpoint cursor_param
        cursor_path None st w.
Proof.
  induction fuel as [|fuel IH]; intros st w; [reflexivity|].
  simpl. unfold mbind, M_bind, bind.
  change (paginate_cursor_step serve config endpoint cursor_param
            cursor_path (Some 0) st w)
    with (paginate_cursor_step serve config endpoint cursor_param
            cursor_path None st w).
  destruct (paginate_cursor_step serve config endpoint cursor_param
              cursor_path None st w) as [[[|st']|e] w1]; try reflexivity.
  apply IH.
Qed.
End Cutoff_proofs.

(** C9.  In both paginators [max_pages = 0] is the same as no
    [max_pages]: the guard [max_pages and page >= max_pages] is false for
    0 whatever the page count, so on every service, from every state and
    however long the generator is driven, the run with 0 is the run with
    [None]; it does not yield zero pages. *)
Theorem max_pages_zero_is_unlimited {B : Type}
    (serve : B → Request → result Response * B) (config : ConnectorConfig)
    (endpoint : string) :
  (∀ page, max_pages_reached (Some 0) page = max_pages_reached None page)
  ∧ (∀ fuel limit kwargs (w : World B),
       paginate_offset serve config fuel endpoint limit (Some 0) kwargs w
       = paginate_offset serve config fuel endpoint limit None kwargs w)
  ∧ (∀ fuel cursor_param cursor_path kwargs (w : World B),
       paginate_cursor serve config fuel endpoint cursor_param cursor_path
         (Some 0) kwargs w
       = paginate_cursor serve config fuel endpoint cursor_param cursor_path
           None kwargs w)
  ∧ (let r := paginate_offset (serve_slice (records_from 1 3))
                (default_config "http://h") 5 "/items" 2 (Some 0) None
                (init_world 0 [] tt ∅) in
     r.1 = Ok true
     ∧ yielded r.2 = [JList (records_from 1 2); JList (records_from 3 1)]).
Proof.
  split; [|split; [|split]].
  - intros page. reflexivity.
  - intros fuel limit kwargs w. apply offset_loop_zero.
  - intros fuel cursor_param cursor_path kwargs w. apply cursor_loop_zero.
  - vm_compute. split; reflexivity.
Qed.

(** ** The caller's parameters *)

Section Params_proofs.
Context {B : Type}.
Variable serve : B → Request → result Response * B.
Variable config : ConnectorConfig.
Variable endpoint : string.
Variable max_pages : option Z.
Variable l : loc.

#[local] Abbreviation request p :=
  (mkRequest "GET" (build_url config endpoint) (Some p) (timeout config)).

Section Offset.
Variable limit : Z.

#[local] Abbreviation upd o p :=
  (<["offset" := JNum o]> (<["limit" := JNum limit]> p)).

Lemma upd_upd (o1 o2 : Z) (p : dict) : upd o2 (upd o1 p) = upd o2 p.
Proof.
  apply map_eq. intros key. rewrite !lookup_insert.
  repeat case_decide; reflexivity.
Qed.

Lemma upd_other (o : Z) (p : dict) (key : string) :
  key ≠ "limit" → key ≠ "offset" → upd o p !! key = p !! key.
Proof.
  intros Hl Ho. rewrite !lookup_insert.
  repeat case_decide; congruence.
Qed.

(** An iteration that gets past the cutoff writes [limit] and its
    [offset] into the caller's mapping, sends that mapping with every
    request, and hands the same object on. *)
Lemma offset_step_params (st : offset_state) (w w' : World B)
    (c : ctl offset_state) :
  os_kwargs st = Some l →
  max_pages_reached max_pages (os_page st) = false →
  paginate_offset_step serve config endpoint limit max_pages st w
  = (Ok c, w') →
  heap w' = <[l := upd (os_offset st) (default ∅ (heap w !! l))]> (heap w)
  ∧ (∃ n, sent w' = sent w
            ++ replicate n
                 (request (upd (os_offset st) (default ∅ (heap w !! l)))))
  ∧ ∀ st', c = Continue st' →
      os_kwargs st' = Some l ∧ os_offset st' = os_offset st + limit.
Proof.
  intros Hkw Hcut. rewrite offset_step_unfold, Hcut.
  destruct (offset_prepare_spec limit st w)
    as (params & w1 & -> & Hh1 & Hl & Hs1 & _).
  rewrite Hkw in Hl. subst params.
  destruct (fetch serve config endpoint l w1) as [fetched w2] eqn:Hfetch.
  destruct (fetch_frame _ _ _ _ _ _ _ Hfetch) as (n & _ & Hh2 & _ & Hs2).
  rewrite Hh1, lookup_insert_eq, Hs1 in Hs2. simpl in Hs2.
  destruct fetched as [data|e].
  - rewrite offset_page_spec.
    destruct (truthy _); [destruct (sized _) as [len|];
                          [case_bool_decide|]|];
      intros [= <- <-]; simpl; rewrite ?Hh2, ?Hh1;
      (split; [reflexivity|]); (split; [exists n; exact Hs2|]);
      intros st' [= <-]; split; reflexivity.
  - intros [= <- <-]. rewrite Hh2, Hh1.
    split; [reflexivity|]. split; [exists n; exact Hs2|]. discriminate.
Qed.

(** Driving [paginate_offset]'s loop leaves the store as it was, or with
    the caller's mapping holding [limit] and the offset of the last
    iteration; every request carried the mapping with the offset of its
    own iteration. *)
Lemma offset_loop_params (fuel : nat) :
  ∀ (st : offset_state) (w w' : World B) (done : bool) (p : dict),
    os_kwargs st = Some l →
    heap w !! l = Some p →
    paginate_offset_loop serve config fuel endpoint limit max_pages st w
    = (Ok done, w') →
    (heap w' = heap w ∧ sent w' = sent w
     ∧ (fuel = 0%nat ∨ max_pages_reached max_pages (os_page st) = true))
    ∨ ∃ k : nat,
        heap w' = <[l := upd (os_offset st + Z.of_nat k * limit) p]> (heap w)
        ∧ ∃ rqs, sent w' = sent w ++ rqs
            ∧ Forall (λ rq, ∃ j : nat, (j ≤ k)%nat
                        ∧ rq = request
                                 (upd (os_offset st + Z.of_nat j * limit) p))
                rqs.
Proof.
  induction fuel as [|fuel IH]; intros st w w' done p Hkw Hp; simpl.
  { intros [= <- <-]. left. repeat split. left. reflexivity. }
  unfold mbind, M_bind, bind.
  destruct (offset_step_returns serve config endpoint limit max_pages st w)
    as (c & w1 & Hstep).
  rewrite Hstep.
  destruct (max_pages_reached max_pages (os_page st)) eqn:Hcut.
  { rewrite offset_step_unfold, Hcut in Hstep. injection Hstep as <- <-.
    intros [= <- <-]. left. repeat split. right. reflexivity. }
  destruct (offset_step_params st w w1 c Hkw Hcut Hstep)
    as (Hh1 & (n & Hs1) & Hnext).
  rewrite Hp in Hh1, Hs1. simpl in Hh1, Hs1.
  assert (Hhere : Forall (λ rq, ∃ j : nat, (j ≤ 0)%nat
            ∧ rq = request (upd (os_offset st + Z.of_nat j * limit) p))
            (replicate n (request (upd (os_offset st) p)))).
  { apply Forall_replicate. exists 0%nat. split; [lia|].
    replace (os_offset st + Z.of_nat 0 * limit) with (os_offset st) by lia.
    reflexivity. }
  destruct c as [|st'].
  - intros [= <- <-]. right. exists 0%nat. split.
    + replace (os_offset st + Z.of_nat 0 * limit) with (os_offset st) by lia.
      exact Hh1.
    + exists (replicate n (request (upd (os_offset st) p))).
      split; [exact Hs1|exact Hhere].
  - destruct (Hnext st' eq_refl) as [Hkw' Hoff'].
    intros Hrest.
    apply (IH st' w1 w' done (upd (os_offset st) p) Hkw') in Hrest;
      [|rewrite Hh1; apply lookup_insert_eq].
    right. destruct Hrest as [(Hh & Hs & _)|(k & Hh & rqs & Hs & Hall)].
    + exists 0%nat. split.
      * replace (os_offset st + Z.of_nat 0 * limit) with (os_offset st)
          by lia.
        congruence.
      * exists (replicate n (request (upd (os_offset st) p))).
        split; [congruence|exact Hhere].
    + exists (S k). split.
      * rewrite Hh, Hh1, insert_insert_eq, upd_upd, Hoff'.
        replace (os_offset st + Z.of_nat (S k) * limit)
          with (os_offset st + limit + Z.of_nat k * limit) by lia.
        reflexivity.
      * exists (replicate n (request (upd (os_offset st) p)) ++ rqs).
        split; [rewrite Hs, Hs1, app_assoc; reflexivity|].
        apply Forall_app. split.
        -- eapply Forall_impl; [exact Hhere|].
           intros rq (j & Hj & ->). exists j. split; [lia|reflexivity].
        -- eapply Forall_impl; [exact Hall|].
           intros rq (j & Hj & ->). exists (S j). split; [lia|].
           rewrite upd_upd, Hoff'.
           replace (os_offset st + Z.of_nat (S j) * limit)
             with (os_offset st + limit + Z.of_nat j * limit) by lia.
           reflexivity.
Qed.
End Offset.

Section Cursor.
Variable cursor_param cursor_path : string.

(** An iteration of [paginate_cursor] that gets past the cutoff writes
    the cursor it holds, if any, into the caller's mapping under
    [cursor_param], sends that mapping with every request, and hands the
    same object on together with a truthy cursor. *)
Lemma cursor_step_params (st : cursor_state) (w w' : World B)
    (c : ctl cursor_state) :
  cs_kwargs st = Some l →
  max_pages_reached max_pages (cs_page st) = false →
  paginate_cursor_step serve config endpoint cursor_param cursor_path
    max_pages st w = (Ok c, w') →
  let content := if truthy (cs_cursor st)
                 then <[cursor_param := cs_cursor st]>
                        (default ∅ (heap w !! l))
                 else default ∅ (heap w !! l) in
  heap w' = (if truthy (cs_cursor st) then <[l := content]> (heap w)
             else heap w)
  ∧ (∃ n, sent w' = sent w ++ replicate n (request content))
  ∧ ∀ st', c = Continue st' →
      cs_kwargs st' = Some l ∧ truthy (cs_cursor st') = true.
Proof.
  intros Hkw Hcut. rewrite cursor_step_unfold, Hcut.
  destruct (cursor_prepare_spec cursor_param st w)
    as (params & w1 & Hprep & Hh1 & Hl & Hs1 & _).
  rewrite Hprep.
  destruct (cursor_prepare_content _ _ _ _ _ Hprep) as [Hcontent _].
  rewrite Hkw in Hl, Hh1. subst params.
  destruct (fetch serve config endpoint l w1) as [fetched w2] eqn:Hfetch.
  destruct (fetch_frame _ _ _ _ _ _ _ Hfetch) as (n & _ & Hh2 & _ & Hs2).
  rewrite Hcontent, Hs1 in Hs2.
  destruct (truthy (cs_cursor st));
    (destruct fetched as [data|e];
     [ rewrite cursor_page_spec;
       destruct (truthy (_extract_records_from_response data));
         [destruct (truthy (_get_nested_value data cursor_path)) eqn:Hcur|];
         intros [= <- <-]; simpl; rewrite ?Hh2, ?Hh1;
         (split; [reflexivity|]); (split; [exists n; exact Hs2|]);
         intros st' [= <-]; split; [reflexivity|exact Hcur]
     | intros [= <- <-]; rewrite Hh2, Hh1;
       split; [reflexivity|]; split; [exists n; exact Hs2|]; discriminate ]).
Qed.

Lemma cursor_loop_params (fuel : nat) :
  ∀ (st : cursor_state) (w w' : World B) (done : bool) (p : dict),
    cs_kwargs st = Some l →
    heap w !! l = Some p →
    paginate_cursor_loop serve config fuel endpoint cursor_param cursor_path
      max_pages st w = (Ok done, w') →
    (heap w' = heap w
     ∨ ∃ c, truthy c = true
         ∧ heap w' = <[l := <[cursor_param := c]> p]> (heap w))
    ∧ ∃ rqs, sent w' = sent w ++ rqs
        ∧ Forall (λ rq, rq = request p
                    ∨ ∃ c, truthy c = true
                        ∧ rq = request (<[cursor_param := c]> p)) rqs.
Proof.
  induction fuel as [|fuel IH]; intros st w w' done p Hkw Hp; simpl.
  { intros [= <- <-]. split; [left; reflexivity|].
    exists []. rewrite app_nil_r. split; [reflexivity|constructor]. }
  unfold mbind, M_bind, bind.
  destruct (cursor_step_returns serve config endpoint cursor_param
              cursor_path max_pages st w) as (c & w1 & Hstep).
  rewrite Hstep.
  destruct (max_pages_reached max_pages (cs_page st)) eqn:Hcut.
  { rewrite cursor_step_unfold, Hcut in Hstep. injection Hstep as <- <-.
    intros [= <- <-]. split; [left; reflexivity|].
    exists []. rewrite app_nil_r. split; [reflexivity|constructor]. }
  destruct (cursor_step_params st w w1 c Hkw Hcut Hstep)
    as (Hh1 & (n & Hs1) & Hnext).
  rewrite Hp in Hh1, Hs1. simpl in Hh1, Hs1.
  set (p1 := if truthy (cs_cursor st)
             then <[cursor_param := cs_cursor st]> p else p) in *.
  assert (Hp1 : heap w1 !! l = Some p1).
  { rewrite Hh1. unfold p1. destruct (truthy (cs_cursor st));
      [apply lookup_insert_eq|exact Hp]. }
  assert (Hstore : ∀ q, <[l := q]> (heap w1) = <[l := q]> (heap w)).
  { intros q. rewrite Hh1. destruct (truthy (cs_cursor st));
      [apply insert_insert_eq|reflexivity]. }
  assert (Hover : ∀ c', <[cursor_param := c']> p1
                        = <[cursor_param := c']> p).
  { intros c'. unfold p1. destruct (truthy (cs_cursor st));
      [apply insert_insert_eq|reflexivity]. }
  assert (Hform : ∀ rq, rq = request p1 →
            rq = request p
            ∨ ∃ c, truthy c = true
                ∧ rq = request (<[cursor_param := c]> p)).
  { intros rq ->. unfold p1.
    destruct (truthy (cs_cursor st)) eqn:Hcur; [right|left; reflexivity].
    exists (cs_cursor st). split; [exact Hcur|reflexivity]. }
  assert (Hheap1 : heap w1 = heap w
            ∨ ∃ c, truthy c = true
                ∧ heap w1 = <[l := <[cursor_param := c]> p]> (heap w)).
  { rewrite Hh1. destruct (truthy (cs_cursor st)) eqn:Hcur;
      [right|left; reflexivity].
    exists (cs_cursor st). split; [exact Hcur|reflexivity]. }
  assert (Hhere : Forall (λ rq, rq = request p
            ∨ ∃ c, truthy c = true
                ∧ rq = request (<[cursor_param := c]> p))
            (replicate n (request p1))).
  { apply Forall_replicate. apply Hform. reflexivity. }
  destruct c as [|st'].
  - intros [= <- <-]. split; [exact Hheap1|].
    exists (replicate n (request p1)). split; [exact Hs1|exact Hhere].
  - destruct (Hnext st' eq_refl) as [Hkw' _].
    intros Hrest.
    apply (IH st' w1 w' done p1 Hkw' Hp1) in Hrest
      as (Hh & rqs & Hs & Hall).
    split.
    + destruct Hh as [->|(c' & Hc' & ->)]; [exact Hheap1|].
      right. exists c'. split; [exact Hc'|].
      rewrite Hstore, Hover. reflexivity.
    + exists (replicate n (request p1) ++ rqs).
      split; [rewrite Hs, Hs1, app_assoc; reflexivity|].
      apply Forall_app. split; [exact Hhere|].
      eapply Forall_impl; [exact Hall|].
      intros rq [->|(c' & Hc' & ->)]; [apply Hform; reflexivity|].
      right. exists c'. split; [exact Hc'|]. rewrite Hover. reflexivity.
Qed.
End Cursor.
End Params_proofs.

(** C10.  When the caller passes a [params] mapping, the paginators work
    on that very object.  [paginate_offset]: no other object of the store
    changes; the caller's mapping keeps every entry under a key other
    than ["limit"] and ["offset"]; each iteration that gets past the
    cutoff writes [limit] and its own [offset] into it and sends it as it
    then is; so once such an iteration has run the mapping is the
    caller's with ["limit"] and with ["offset"] at the value of the last
    iteration.  [paginate_cursor]: no other object changes; each
    iteration that holds a cursor writes it under [cursor_param]; the
    mapping ends as it was or with the last cursor under [cursor_param],
    all other entries as the caller gave them. *)
Theorem params_mutated_in_place {B : Type}
    (serve : B → Request → result Response * B) (config : ConnectorConfig)
    (endpoint : string) (max_pages : option Z) (l : loc) (p0 : dict) :
  (∀ limit fuel (w w' : World B) done,
     heap w !! l = Some p0 →
     paginate_offset serve config fuel endpoint limit max_pages (Some l) w
     = (Ok done, w') →
     (∀ l', l' ≠ l → heap w' !! l' = heap w !! l')
     ∧ ∃ p, heap w' !! l = Some p
         ∧ (∀ key, key ≠ "limit" → key ≠ "offset" → p !! key = p0 !! key)
         ∧ (fuel ≠ 0%nat → max_pages_reached max_pages 0 = false →
            ∃ k : nat,
              p = <["offset" := JNum (Z.of_nat k * limit)]>
                    (<["limit" := JNum limit]> p0)
              ∧ ∃ rqs, sent w' = sent w ++ rqs
                  ∧ Forall (λ rq, ∃ j : nat, (j ≤ k)%nat
                      ∧ req_params rq
                        = Some (<["offset" := JNum (Z.of_nat j * limit)]>
                                  (<["limit" := JNum limit]> p0))) rqs))
  ∧ (∀ limit st (w w' : World B) c,
       os_kwargs st = Some l →
       heap w !! l = Some p0 →
       max_pages_reached max_pages (os_page st) = false →
       paginate_offset_step serve config endpoint limit max_pages st w
       = (Ok c, w') →
       heap w' !! l = Some (<["offset" := JNum (os_offset st)]>
                              (<["limit" := JNum limit]> p0))
       ∧ ∃ n, sent w' = sent w
            ++ replicate n
                 (mkRequest "GET" (build_url config endpoint)
                    (Some (<["offset" := JNum (os_offset st)]>
                             (<["limit" := JNum limit]> p0)))
                    (timeout config)))
  ∧ (∀ cursor_param cursor_path fuel (w w' : World B) done,
       heap w !! l = Some p0 →
       paginate_cursor serve config fuel endpoint cursor_param cursor_path
         max_pages (Some l) w = (Ok done, w') →
       (∀ l', l' ≠ l → heap w' !! l' = heap w !! l')
       ∧ ∃ p, heap w' !! l = Some p
           ∧ (∀ key, key ≠ cursor_param → p !! key = p0 !! key)
           ∧ (p = p0
              ∨ ∃ c, truthy c = true ∧ p = <[cursor_param := c]> p0))
  ∧ (∀ cursor_param cursor_path st (w w' : World B) c,
       cs_kwargs st = Some l →
       heap w !! l = Some p0 →
       max_pages_reached max_pages (cs_page st) = false →
       truthy (cs_cursor st) = true →
       paginate_cursor_step serve config endpoint cursor_param cursor_path
         max_pages st w = (Ok c, w') →
       heap w' !! l = Some (<[cursor_param := cs_cursor st]> p0)
       ∧ ∃ n, sent w' = sent w
            ++ replicate n
                 (mkRequest "GET" (build_url config endpoint)
                    (Some (<[cursor_param := cs_cursor st]> p0))
                    (timeout config))).
Proof.
  split; [|split; [|split]].
  - intros limit fuel w w' done Hp Hrun.
    apply (offset_loop_params serve config endpoint max_pages l limit fuel
             (mkOffset 0 0 (Some l)) w w' done p0 eq_refl Hp) in Hrun.
    destruct Hrun as [(Hh & Hs & Hnone)|(k & Hh & rqs & Hs & Hall)].
    + rewrite Hh. split; [reflexivity|]. exists p0.
      split; [exact Hp|]. split; [reflexivity|].
      intros Hfuel Hcut. simpl in Hnone. destruct Hnone; congruence.
    + rewrite Hh. simpl. split.
      * intros l' Hl'. apply lookup_insert_ne. congruence.
      * eexists. split; [apply lookup_insert_eq|].
        split; [intros key; apply upd_other|].
        intros _ _. exists k. split; [reflexivity|].
        exists rqs. split; [exact Hs|].
        eapply Forall_impl; [exact Hall|].
        intros rq (j & Hj & ->). exists j. split; [exact Hj|reflexivity].
  - intros limit st w w' c Hkw Hp Hcut Hstep.
    destruct (offset_step_params serve config endpoint max_pages l limit
                st w w' c Hkw Hcut Hstep) as (Hh & Hs & _).
    rewrite Hp in Hh, Hs. simpl in Hh, Hs.
    split; [rewrite Hh; apply lookup_insert_eq|exact Hs].
  - intros cursor_param cursor_path fuel w w' done Hp Hrun.
    apply (cursor_loop_params serve config endpoint max_pages l cursor_param
             cursor_path fuel (mkCursor JNull 0 (Some l)) w w' done p0
             eq_refl Hp) in Hrun.
    destruct Hrun as [[Hh|(c & Hc & Hh)] _]; rewrite Hh.
    + split; [reflexivity|]. exists p0. split; [exact Hp|].
      split; [reflexivity|]. left. reflexivity.
    + split.
      * intros l' Hl'. apply lookup_insert_ne. congruence.
      * eexists. split; [apply lookup_insert_eq|].
        split; [|right; exists c; split; [exact Hc|reflexivity]].
        intros key Hkey. apply lookup_insert_ne. congruence.
  - intros cursor_param cursor_path st w w' c Hkw Hp Hcut Hcur Hstep.
    destruct (cursor_step_params serve config endpoint max_pages l
                cursor_param cursor_path st w w' c Hkw Hcut Hstep)
      as (Hh & Hs & _).
    rewrite Hp, Hcur in Hh, Hs. simpl in Hh, Hs.
    split; [rewrite Hh; apply lookup_insert_eq|exact Hs].
Qed.

(** The caller passes [{"q": "x"}]; three records are served two at a
    time. *)
Lemma params_mutated_in_place_witness :
  let config := default_config "http://h" in
  let p0 : dict := {[ "q" := JStr "x" ]} in
  let w := init_world 0 [] tt {[ 1%positive := p0 ]} in
  let r := paginate_offset (serve_slice (records_from 1 3)) config 5
             "/items" 2 None (Some 1%positive) w in
  heap w !! 1%positive = Some p0
  ∧ r.1 = Ok true
  ∧ heap r.2 !! 1%positive
    = Some {[ "q" := JStr "x"; "limit" := JNum 2; "offset" := JNum 2 ]}
  ∧ ∃ p, heap r.2 !! 1%positive = Some p
      ∧ ∀ key, key ≠ "limit" → key ≠ "offset" → p !! key = p0 !! key.
Proof.
  intros config p0 w r.
  split; [reflexivity|]. split; [reflexivity|].
  split; [vm_compute; reflexivity|].
  destruct (proj1 (params_mutated_in_place
                     (serve_slice (records_from 1 3)) config "/items" None
                     1%positive p0) 2 5%nat w r.2 true)
    as (_ & p & Hp & Hkeep & _).
  - reflexivity.
  - vm_compute. reflexivity.
  - exists p. split; [exact Hp|exact Hkeep].
Defined.

Example cursor_params_mutated :
  let config := default_config "http://h" in
  let d1 := JDict {[ "items" := JList [JNum 1]; "next_cursor" := JStr "c1" ]} in
  let d2 := JDict {[ "items" := JList [JNum 2] ]} in
  let p0 : dict := {[ "q" := JStr "x" ]} in
  let r := paginate_cursor serve_script config 5 "/items" "cursor"
             "next_cursor" None (Some 1%positive)
             (init_world 0 [] [ok_json d1; ok_json d2]
                {[ 1%positive := p0 ]}) in
  r.1 = Ok true
  ∧ heap r.2 !! 1%positive
    = Some {[ "q" := JStr "x"; "cursor" := JStr "c1" ]}
  ∧ map req_params (sent r.2)
    = [Some p0; Some {[ "q" := JStr "x"; "cursor" := JStr "c1" ]}].
Proof. vm_compute. repeat split. Qed.

(** * Further properties *)

(** ** The limiter's list, timestamps and sleeps *)

Section Limiter_more.
Context {B : Type} (config : ConnectorConfig).

(** One call from a state whose recorded calls are not in the future:
    the timestamp recorded is the clock after the call, nothing recorded
    is in the future afterwards, and a sleep, if there is one, is positive
    and no longer than the period. *)
Lemma rate_limit_check_sleep (w : World B) :
  1 ≤ rate_limit_calls config →
  Forall (λ t, t ≤ clock w) (_rate_limit_calls w) →
  ∃ w' ds, _rate_limit_check config w = (Ok tt, w')
    ∧ last (_rate_limit_calls w') = Some (clock w')
    ∧ clock w ≤ clock w'
    ∧ Forall (λ t, t ≤ clock w') (_rate_limit_calls w')
    ∧ sleeps w' = sleeps w ++ ds
    ∧ Forall (λ d, 0 < d ≤ rate_limit_period config) ds
    ∧ (length (_rate_limit_calls w') ≤ S (length (_rate_limit_calls w)))%nat
    ∧ (Z.of_nat (length (_rate_limit_calls w)) < rate_limit_calls config →
       ds = [])
    ∧ (rate_limit_period config ≤ 0 → ds = []).
Proof.
  intros Hq Hpast.
  destruct (rate_limit_check_step config w Hq)
    as (w' & Hrun & Hcalls & Hnow & Hfull & Hfree & _).
  set (now := clock w + Z.of_nat (hd 0%nat (latency w))) in *.
  set (kept := filter (λ c, now - c < rate_limit_period config)
                 (_rate_limit_calls w)) in *.
  assert (Hclk : clock w ≤ now) by (unfold now; lia).
  assert (Hlen : (length kept ≤ length (_rate_limit_calls w))%nat)
    by apply length_filter.
  assert (Hkept : Forall (λ t, t ≤ clock w ∧ now - t < rate_limit_period config)
                    kept).
  { apply Forall_forall. intros t Ht.
    apply list_elem_of_filter in Ht as [Hyoung Ht].
    rewrite Forall_forall in Hpast. split; [apply Hpast, Ht|exact Hyoung]. }
  assert (Hpast' : Forall (λ t, t ≤ clock w') (_rate_limit_calls w')).
  { rewrite Hcalls. apply Forall_app. split.
    - eapply Forall_impl; [exact Hkept|]. simpl. intros t [Ht _]. lia.
    - constructor; [lia|constructor]. }
  destruct (decide (rate_limit_calls config ≤ Z.of_nat (length kept)))
    as [Hge|Hlt].
  - destruct (Hfull Hge) as (oldest & Hmin & _ & Hsleep).
    destruct (py_min_lower _ _ Hmin) as [Hin _].
    rewrite Forall_forall in Hkept. destruct (Hkept oldest Hin) as [Ho1 Ho2].
    exists w', [rate_limit_period config - (now - oldest)].
    split; [exact Hrun|]. split; [rewrite Hcalls; apply last_snoc|].
    split; [lia|]. split; [exact Hpast'|]. split; [exact Hsleep|].
    split; [constructor; [lia|constructor]|].
    split; [rewrite Hcalls, length_app; simpl; lia|].
    split; intros; lia.
  - exists w', []. rewrite app_nil_r.
    split; [exact Hrun|]. split; [rewrite Hcalls; apply last_snoc|].
    split; [lia|]. split; [exact Hpast'|]. split; [apply Hfree; lia|].
    split; [constructor|].
    split; [rewrite Hcalls, length_app; simpl; lia|].
    split; reflexivity.
Qed.

Lemma admit_many_run (n : nat) : ∀ w : World B,
  1 ≤ rate_limit_calls config →
  Forall (λ t, t ≤ clock w) (_rate_limit_calls w) →
  ∃ ts w' ds, admit_many config n w = (Ok ts, w')
    ∧ length ts = n
    ∧ clock w ≤ clock w'
    ∧ Forall (λ t, t ≤ clock w') (_rate_limit_calls w')
    ∧ Forall (λ t, clock w ≤ t ≤ clock w') ts
    ∧ StronglySorted Z.le ts
    ∧ sleeps w' = sleeps w ++ ds
    ∧ Forall (λ d, 0 < d ≤ rate_limit_period config) ds
    ∧ (Z.of_nat (length (_rate_limit_calls w)) + Z.of_nat n
       ≤ rate_limit_calls config → ds = [])
    ∧ (rate_limit_period config ≤ 0 → ds = []).
Proof.
  induction n as [|n IH]; intros w Hq Hpast.
  - exists [], w, []. rewrite app_nil_r.
    repeat split; try constructor; try lia. exact Hpast.
  - destruct (rate_limit_check_sleep w Hq Hpast)
      as (w1 & ds1 & Hrun & Hlast & Hclk & Hpast1 & Hs1 & Hd1 & Hlen & Hfree
          & Hoff).
    destruct (IH w1 Hq Hpast1)
      as (ts & w2 & ds2 & Hrest & Hlen2 & Hclk2 & Hpast2 & Hts & Hsorted & Hs2
          & Hd2 & Hfree2 & Hoff2).
    exists (clock w1 :: ts), w2, (ds1 ++ ds2).
    split.
    { simpl. unfold mbind, M_bind, bind. rewrite Hrun.
      unfold get_calls. simpl. rewrite Hrest, Hlast. reflexivity. }
    split; [simpl; congruence|].
    split; [lia|]. split; [exact Hpast2|]. split.
    { constructor; [lia|].
      eapply Forall_impl; [exact Hts|]. simpl. intros; lia. }
    split.
    { constructor; [exact Hsorted|].
      eapply Forall_impl; [exact Hts|]. simpl. intros; lia. }
    split; [rewrite Hs2, Hs1, app_assoc; reflexivity|].
    split; [apply Forall_app; split; assumption|].
    split.
    + intros Hroom. rewrite Hfree by lia. rewrite Hfree2 by lia. reflexivity.
    + intros Hp. rewrite (Hoff Hp), (Hoff2 Hp). reflexivity.
Qed.

Lemma admit_many_list_bound (n : nat) : ∀ (hist : list Z) (w : World B),
  1 ≤ rate_limit_calls config →
  0 < rate_limit_period config →
  limiter_inv config hist w →
  Z.of_nat (length (_rate_limit_calls w)) ≤ rate_limit_calls config + 1 →
  ∃ ts w', admit_many config n w = (Ok ts, w')
    ∧ Z.of_nat (length (_rate_limit_calls w')) ≤ rate_limit_calls config + 1.
Proof.
  induction n as [|n IH]; intros hist w Hq Hp Hinv Hlen.
  - exists [], w. split; [reflexivity|exact Hlen].
  - destruct (limiter_inv_step config hist w Hq Hp Hinv)
      as (w1 & Hrun & Hlast & Hinv1).
    destruct (rate_limit_check_step config w Hq)
      as (w1' & Hrun' & Hcalls & _).
    rewrite Hrun in Hrun'. injection Hrun' as <-.
    assert (Hlen1 : Z.of_nat (length (_rate_limit_calls w1))
                    ≤ rate_limit_calls config + 1).
    { destruct Hinv as (_ & _ & Hcur & _).
      rewrite Hcalls, length_app. simpl.
      pose proof (length_filter_mono
        (λ c, clock w + Z.of_nat (hd 0%nat (latency w)) - c
              < rate_limit_period config)
        (λ t, clock w - rate_limit_period config < t)
        (_rate_limit_calls w)) as Hmono.
      assert (∀ x : Z,
        clock w + Z.of_nat (hd 0%nat (latency w)) - x
        < rate_limit_period config →
        clock w - rate_limit_period config < x) as Himp by (intros; lia).
      specialize (Hmono Himp). lia. }
    destruct (IH _ w1 Hq Hp Hinv1 Hlen1) as (ts & w2 & Hrest & Hlen2).
    exists (clock w1 :: ts), w2. split; [|exact Hlen2].
    simpl. unfold mbind, M_bind, bind. rewrite Hrun.
    unfold get_calls. simpl. rewrite Hrest, Hlast. reflexivity.
Qed.
End Limiter_more.

(** X1.  However many calls a fresh connector has made, the list
    [_rate_limit_calls] holds at most one entry more than the quota: the
    pruning keeps the bookkeeping bounded. *)
Theorem rate_limit_list_bounded {B : Type} (config : ConnectorConfig)
    (n : nat) (now : Z) (lat : list nat) (b : B) (h : gmap loc dict) :
  1 ≤ rate_limit_calls config →
  0 < rate_limit_period config →
  ∃ ts w', admit_many config n (init_world now lat b h) = (Ok ts, w')
    ∧ Z.of_nat (length (_rate_limit_calls w')) ≤ rate_limit_calls config + 1.
Proof.
  intros Hq Hp.
  apply (admit_many_list_bound config n [] _ Hq Hp
           (limiter_inv_init config now lat b h Hq)).
  simpl. lia.
Qed.

Lemma rate_limit_list_bounded_witness :
  let config := mkConfig "http://h" None 2 10 3 30 in
  ∃ ts w', admit_many config 7 (init_world 0 [1; 0; 3]%nat tt ∅) = (Ok ts, w')
    ∧ Z.of_nat (length (_rate_limit_calls w')) ≤ rate_limit_calls config + 1.
Proof.
  intros config.
  apply (rate_limit_list_bounded config 7 0 [1; 0; 3]%nat tt ∅);
    simpl; lia.
Defined.

(** X2.  On a fresh connector the timestamps recorded by successive calls
    never decrease and none lies before the start; every sleep the
    limiter takes is positive and at most one period long. *)
Theorem rate_limit_timestamps_and_sleeps {B : Type}
    (config : ConnectorConfig) (n : nat) (now : Z) (lat : list nat) (b : B)
    (h : gmap loc dict) :
  1 ≤ rate_limit_calls config →
  ∃ ts w', admit_many config n (init_world now lat b h) = (Ok ts, w')
    ∧ StronglySorted Z.le ts
    ∧ Forall (λ t, now ≤ t ≤ clock w') ts
    ∧ Forall (λ d, 0 < d ≤ rate_limit_period config) (sleeps w').
Proof.
  intros Hq.
  destruct (admit_many_run config n (init_world now lat b h) Hq)
    as (ts & w' & ds & Hrun & _ & _ & _ & Hts & Hsorted & Hs & Hd & _);
    [constructor|].
  exists ts, w'. simpl in Hs. rewrite Hs.
  repeat split; assumption.
Qed.

Lemma rate_limit_timestamps_and_sleeps_witness :
  let config := mkConfig "http://h" None 2 10 3 30 in
  ∃ ts w', admit_many config 5 (init_world 0 [] tt ∅) = (Ok ts, w')
    ∧ StronglySorted Z.le ts
    ∧ Forall (λ t, 0 ≤ t ≤ clock w') ts
    ∧ Forall (λ d, 0 < d ≤ rate_limit_period config) (sleeps w').
Proof.
  intros config.
  apply (rate_limit_timestamps_and_sleeps config 5 0 [] tt ∅).
  simpl. lia.
Defined.

(** X3.  A fresh connector admits its first [rate_limit_calls] calls
    without sleeping, however fast they come. *)
Theorem rate_limit_burst_is_free {B : Type} (config : ConnectorConfig)
    (n : nat) (now : Z) (lat : list nat) (b : B) (h : gmap loc dict) :
  Z.of_nat n ≤ rate_limit_calls config →
  ∃ ts w', admit_many config n (init_world now lat b h) = (Ok ts, w')
    ∧ length ts = n
    ∧ sleeps w' = [].
Proof.
  intros Hn. destruct n as [|n].
  { exists [], (init_world now lat b h). repeat split. }
  assert (Hq : 1 ≤ rate_limit_calls config) by lia.
  destruct (admit_many_run config (S n) (init_world now lat b h) Hq)
    as (ts & w' & ds & Hrun & Hlen & _ & _ & _ & _ & Hs & _ & Hfree & _);
    [constructor|].
  exists ts, w'. split; [exact Hrun|]. split; [exact Hlen|].
  rewrite Hs, Hfree; [reflexivity|]. simpl in *. lia.
Qed.

Lemma rate_limit_burst_is_free_witness :
  let config := mkConfig "http://h" None 3 10 3 30 in
  ∃ ts w', admit_many config 3 (init_world 0 [] tt ∅) = (Ok ts, w')
    ∧ length ts = 3%nat
    ∧ sleeps w' = [].
Proof.
  intros config.
  apply (rate_limit_burst_is_free config 3 0 [] tt ∅). simpl. lia.
Defined.

(** X4.  A period of zero or less switches the limiter off: with a quota
    of at least one call no call of a fresh connector ever sleeps, since
    every earlier call is pruned at once. *)
Theorem rate_limit_nonpositive_period {B : Type} (config : ConnectorConfig)
    (n : nat) (now : Z) (lat : list nat) (b : B) (h : gmap loc dict) :
  1 ≤ rate_limit_calls config →
  rate_limit_period config ≤ 0 →
  ∃ ts w', admit_many config n (init_world now lat b h) = (Ok ts, w')
    ∧ length ts = n
    ∧ sleeps w' = [].
Proof.
  intros Hq Hp.
  destruct (admit_many_run config n (init_world now lat b h) Hq)
    as (ts & w' & ds & Hrun & Hlen & _ & _ & _ & _ & Hs & _ & _ & Hoff);
    [constructor|].
  exists ts, w'. split; [exact Hrun|]. split; [exact Hlen|].
  rewrite Hs, (Hoff Hp). reflexivity.
Qed.

Lemma rate_limit_nonpositive_period_witness :
  let config := mkConfig "http://h" None 1 0 3 30 in
  ∃ ts w', admit_many config 4 (init_world 0 [] tt ∅) = (Ok ts, w')
    ∧ length ts = 4%nat
    ∧ sleeps w' = [].
Proof.
  intros config.
  apply (rate_limit_nonpositive_period config 4 0 [] tt ∅); simpl; lia.
Defined.

(** ** A quota of zero *)

Section No_quota.
Context {B : Type}.
Variable serve : B → Request → result Response * B.
Variable config : ConnectorConfig.
Hypothesis Hquota : rate_limit_calls config ≤ 0.

Lemma attempt_no_quota (method url : string) (params : option dict)
    (w : World B) :
  _rate_limit_calls w = [] →
  ∃ w', _make_request_attempt serve config method url params w
        = (Raise ValueError, w')
    ∧ _rate_limit_calls w' = []
    ∧ sent w' = sent w ∧ backend w' = backend w ∧ heap w' = heap w
    ∧ yielded w' = yielded w.
Proof.
  intros Hcalls.
  unfold _make_request_attempt, _rate_limit_check, time_time, get_calls,
    set_calls. unfold_monad. simpl. rewrite Hcalls. simpl.
  rewrite bool_decide_eq_true_2 by (simpl; lia). simpl.
  eexists. split; [reflexivity|]. repeat split.
Qed.

Lemma make_request_no_quota (method url : string) (params : option dict)
    (w : World B) :
  _rate_limit_calls w = [] →
  ∃ w', _make_request serve config method url params w
        = (Raise ValueError, w')
    ∧ _rate_limit_calls w' = []
    ∧ sent w' = sent w ∧ backend w' = backend w ∧ heap w' = heap w
    ∧ yielded w' = yielded w.
Proof.
  intros Hcalls. rewrite make_request_three_attempts.
  destruct (attempt_no_quota method url params w Hcalls)
    as (w1 & -> & Hc1 & Hs1 & Hb1 & Hh1 & Hy1).
  destruct (attempt_no_quota method url params (time_sleep 2 w1).2 Hc1)
    as (w2 & -> & Hc2 & Hs2 & Hb2 & Hh2 & Hy2).
  destruct (attempt_no_quota method url params (time_sleep 2 w2).2 Hc2)
    as (w3 & -> & Hc3 & Hs3 & Hb3 & Hh3 & Hy3).
  exists w3. simpl in *. repeat split; congruence.
Qed.
End No_quota.

Lemma offset_prepare_calls {B : Type} (limit : Z) (st : offset_state)
    (w w1 : World B) (params : loc) :
  offset_prepare limit st w = (Ok params, w1) →
  _rate_limit_calls w1 = _rate_limit_calls w.
Proof.
  unfold offset_prepare, update_limit_offset, kwargs_get_params.
  destruct (os_kwargs st) as [l|]; unfold_monad; simpl;
    intros [= <- <-]; reflexivity.
Qed.

(** X5.  With a quota of zero or less a fresh connector never reaches the
    service: every attempt of [_make_request] raises [ValueError] in the
    limiter, so [_make_request] and [get] raise it without a request
    having been sent, and [paginate_offset] ends at once with no page. *)
Theorem zero_quota_blocks_requests {B : Type}
    (serve : B → Request → result Response * B) (config : ConnectorConfig)
    (w : World B) :
  rate_limit_calls config ≤ 0 →
  _rate_limit_calls w = [] →
  (∀ method url params,
     ∃ w', _make_request serve config method url params w
           = (Raise ValueError, w')
       ∧ sent w' = sent w ∧ backend w' = backend w)
  ∧ (∀ endpoint params,
       ∃ w', get serve config endpoint params w = (Raise ValueError, w')
         ∧ sent w' = sent w ∧ backend w' = backend w)
  ∧ (∀ fuel endpoint limit max_pages kwargs,
       fuel ≠ 0%nat →
       ∃ w', paginate_offset serve config fuel endpoint limit max_pages
               kwargs w = (Ok true, w')
         ∧ yielded w' = yielded w ∧ sent w' = sent w
         ∧ backend w' = backend w).
Proof.
  intros Hq Hcalls. split; [|split].
  - intros method url params.
    destruct (make_request_no_quota serve config Hq method url params w
                Hcalls) as (w' & Hrun & _ & Hs & Hb & _).
    exists w'. repeat split; assumption.
  - intros endpoint params. unfold get. unfold_monad.
    destruct (make_request_no_quota serve config Hq "GET"
                (build_url config endpoint) params w Hcalls)
      as (w' & -> & _ & Hs & Hb & _).
    exists w'. repeat split; assumption.
  - intros fuel endpoint limit max_pages kwargs Hfuel.
    destruct fuel as [|fuel]; [congruence|].
    unfold paginate_offset. simpl. unfold_monad.
    rewrite offset_step_unfold. simpl.
    destruct (max_pages_reached max_pages 0).
    { exists w. repeat split. }
    destruct (offset_prepare_spec limit (mkOffset 0 0 kwargs) w)
      as (params & w1 & Hprep & _ & _ & Hs1 & Hy1 & Hb1).
    rewrite Hprep. apply offset_prepare_calls in Hprep.
    unfold fetch, deref, get. unfold_monad.
    destruct (make_request_no_quota serve config Hq "GET"
                (build_url config endpoint)
                (Some (default ∅ (heap w1 !! params))) w1)
      as (w2 & -> & _ & Hs2 & Hb2 & _ & Hy2); [congruence|].
    exists w2. repeat split; congruence.
Qed.

Lemma zero_quota_blocks_requests_witness :
  let config := mkConfig "http://h" None 0 60 3 30 in
  let w := init_world 0 [] [ok_json (JList [JNum 1])] ∅ in
  ∃ w', paginate_offset serve_script config 5 "/items" 100 None None w
        = (Ok true, w')
    ∧ yielded w' = [] ∧ sent w' = []
    ∧ backend w' = [ok_json (JList [JNum 1])].
Proof.
  intros config w.
  apply (proj2 (proj2 (zero_quota_blocks_requests serve_script config w
                         ltac:(simpl; lia) eq_refl))
           5%nat "/items" 100 None None).
  discriminate.
Defined.

(** ** Attempts, retries and decoding *)

Section Attempts.
Context {B : Type}.
Variable serve : B → Request → result Response * B.
Variable config : ConnectorConfig.
Hypothesis Hquota : 1 ≤ rate_limit_calls config.

(** One attempt sends one request and ends as the service's answer
    decides. *)
Lemma attempt_outcome (method url : string) (params : option dict)
    (w : World B) (o : result Response) (b' : B) :
  serve (backend w) (mkRequest method url params (timeout config))
  = (o, b') →
  ∃ w', _make_request_attempt serve config method url params w
        = (match attempt_error o with Some e => Raise e | None => o end, w')
    ∧ sends (mkRequest method url params (timeout config)) 1 w w'
    ∧ backend w' = b'.
Proof.
  intros Hserve.
  destruct (rate_limit_check_step config w Hquota)
    as (w0 & Hlim & _ & _ & _ & _ & Hb & Hs & Hh & Hy).
  unfold _make_request_attempt. unfold_monad. rewrite Hlim.
  unfold session_request. rewrite Hb, Hserve.
  destruct o as [response|e]; simpl.
  - unfold raise_for_status. case_bool_decide; unfold_monad; simpl.
    + eexists. split; [reflexivity|]. repeat split; simpl; congruence.
    + eexists. split; [reflexivity|]. repeat split; simpl; congruence.
  - destruct (RequestException e);
      (eexists; split; [reflexivity|]; repeat split; simpl; congruence).
Qed.

Lemma sleep_sends (rq : Request) (d : Z) (w : World B) :
  sends rq 0 w (time_sleep d w).2.
Proof. repeat split. simpl. rewrite app_nil_r. reflexivity. Qed.

(** An attempt after a sleep, chained to what came before. *)
Lemma attempt_after_sleep (method url : string) (params : option dict)
    (n : nat) (w0 w : World B) (o : result Response) (b' : B) :
  sends (mkRequest method url params (timeout config)) n w0 w →
  serve (backend w) (mkRequest method url params (timeout config))
  = (o, b') →
  ∃ w', _make_request_attempt serve config method url params
          (time_sleep 2 w).2
        = (match attempt_error o with Some e => Raise e | None => o end, w')
    ∧ sends (mkRequest method url params (timeout config)) (n + 1) w0 w'
    ∧ backend w' = b'.
Proof.
  intros Hsent Hserve.
  destruct (attempt_outcome method url params (time_sleep 2 w).2 o b' Hserve)
    as (w' & Hrun & Hs & Hb).
  exists w'. split; [exact Hrun|]. split; [|exact Hb].
  replace (n + 1)%nat with (n + (0 + 1))%nat by lia.
  exact (sends_trans _ _ _ _ _ _ Hsent
           (sends_trans _ _ _ _ _ _ (sleep_sends _ 2 w) Hs)).
Qed.
End Attempts.

(** X6.  Against a service that replays a script, and with a quota of at
    least one call: when at most two answers fail (a transport failure or
    a status from 400 to 599) and the next one does not, [_make_request]
    returns that response, having sent one request per answer used; when
    the first three answers fail it raises the failure of the third and
    leaves the rest of the script untouched. *)
Theorem make_request_retries_script (config : ConnectorConfig)
    (method url : string) (params : option dict)
    (w : World (list (result Response))) :
  1 ≤ rate_limit_calls config →
  (∀ fails response rest,
     (length fails ≤ 2)%nat →
     Forall (λ o, attempt_error o ≠ None) fails →
     attempt_error (Ok response) = None →
     backend w = fails ++ Ok response :: rest →
     ∃ w', _make_request serve_script config method url params w
           = (Ok response, w')
       ∧ sends (mkRequest method url params (timeout config))
           (S (length fails)) w w'
       ∧ backend w' = rest)
  ∧ (∀ o1 o2 o3 e rest,
       attempt_error o1 ≠ None →
       attempt_error o2 ≠ None →
       attempt_error o3 = Some e →
       backend w = o1 :: o2 :: o3 :: rest →
       ∃ w', _make_request serve_script config method url params w
             = (Raise e, w')
         ∧ sends (mkRequest method url params (timeout config)) 3 w w'
         ∧ backend w' = rest).
Proof.
  intros Hq.
  assert (Hfirst : ∀ o rest, backend w = o :: rest →
    ∃ w1, _make_request_attempt serve_script config method url params w
          = (match attempt_error o with Some e => Raise e | None => o end, w1)
      ∧ sends (mkRequest method url params (timeout config)) 1 w w1
      ∧ backend w1 = rest).
  { intros o rest Hb. apply attempt_outcome; [exact Hq|].
    rewrite Hb. reflexivity. }
  assert (Hnext : ∀ n w1 o rest,
    sends (mkRequest method url params (timeout config)) n w w1 →
    backend w1 = o :: rest →
    ∃ w2, _make_request_attempt serve_script config method url params
            (time_sleep 2 w1).2
          = (match attempt_error o with Some e => Raise e | None => o end, w2)
      ∧ sends (mkRequest method url params (timeout config)) (n + 1) w w2
      ∧ backend w2 = rest).
  { intros n w1 o rest Hs Hb.
    apply (attempt_after_sleep serve_script config Hq method url params n w
             w1 o rest Hs).
    rewrite Hb. reflexivity. }
  split.
  - intros fails response rest Hlen Hfails Hok Hb.
    rewrite make_request_three_attempts.
    destruct fails as [|o1 [|o2 [|o3 fails]]]; simpl in Hlen; try lia;
      simpl in Hb.
    + destruct (Hfirst _ _ Hb) as (w1 & -> & Hs1 & Hb1). rewrite Hok.
      exists w1. split; [reflexivity|]. split; assumption.
    + apply Forall_cons in Hfails as [Hf1 _].
      destruct (attempt_error o1) as [e1|] eqn:He1; [|congruence].
      destruct (Hfirst _ _ Hb) as (w1 & -> & Hs1 & Hb1). rewrite He1.
      destruct (Hnext _ _ _ _ Hs1 Hb1) as (w2 & -> & Hs2 & Hb2).
      rewrite Hok. exists w2. split; [reflexivity|]. split; assumption.
    + apply Forall_cons in Hfails as [Hf1 Hfails].
      apply Forall_cons in Hfails as [Hf2 _].
      destruct (attempt_error o1) as [e1|] eqn:He1; [|congruence].
      destruct (attempt_error o2) as [e2|] eqn:He2; [|congruence].
      destruct (Hfirst _ _ Hb) as (w1 & -> & Hs1 & Hb1). rewrite He1.
      destruct (Hnext _ _ _ _ Hs1 Hb1) as (w2 & -> & Hs2 & Hb2).
      rewrite He2.
      destruct (Hnext _ _ _ _ Hs2 Hb2) as (w3 & -> & Hs3 & Hb3).
      rewrite Hok. exists w3. split; [reflexivity|]. split; assumption.
  - intros o1 o2 o3 e rest Hf1 Hf2 Hf3 Hb.
    rewrite make_request_three_attempts.
    destruct (attempt_error o1) as [e1|] eqn:He1; [|congruence].
    destruct (attempt_error o2) as [e2|] eqn:He2; [|congruence].
    destruct (Hfirst _ _ Hb) as (w1 & -> & Hs1 & Hb1). rewrite He1.
    destruct (Hnext _ _ _ _ Hs1 Hb1) as (w2 & -> & Hs2 & Hb2).
    rewrite He2.
    destruct (Hnext _ _ _ _ Hs2 Hb2) as (w3 & -> & Hs3 & Hb3).
    rewrite Hf3. exists w3. split; [reflexivity|]. split; assumption.
Qed.

(** A time-out, then status 503, then an answer. *)
Lemma make_request_retries_script_witness :
  let config := default_config "http://h" in
  let ok := mkResponse 200 (Some (JList [])) in
  let w := init_world 0 []
             [Raise (ConnectionError 7); Ok (mkResponse 503 None); Ok ok;
              Ok ok] ∅ in
  ∃ w', _make_request serve_script config "GET" "http://h/a" None w
        = (Ok ok, w')
    ∧ sends (mkRequest "GET" "http://h/a" None (timeout config)) 3 w w'
    ∧ backend w' = [Ok ok].
Proof.
  intros config ok w.
  apply (proj1 (make_request_retries_script config "GET" "http://h/a" None w
                  ltac:(simpl; lia))
           [Raise (ConnectionError 7); Ok (mkResponse 503 None)] ok [Ok ok]).
  - simpl. lia.
  - repeat constructor; discriminate.
  - reflexivity.
  - reflexivity.
Defined.

Section Decoding.
Context {B : Type}.
Variable serve : B → Request → result Response * B.
Variable config : ConnectorConfig.
Hypothesis Hquota : 1 ≤ rate_limit_calls config.

End Decoding.





(** ** Dotted paths *)

Lemma split_app (sep : ascii) (a b : string) :
  split sep (a ++ String sep b)%string = split sep a ++ split sep b.
Proof.
  induction a as [|c a IH].
  - change (split sep (String sep b) = [EmptyString] ++ split sep b).
    simpl. rewrite Ascii.eqb_refl. reflexivity.
  - change (split sep (String c (a ++ String sep b)%string)
            = split sep (String c a) ++ split sep b).
    simpl. rewrite IH.
    destruct (Ascii.eqb c sep); [reflexivity|].
    pose proof (split_nonempty sep a) as Hne.
    destruct (split sep a) as [|seg segs]; [contradiction|]. reflexivity.
Qed.

Lemma split_no_sep (sep : ascii) (key : string) :
  mem_char sep key = false → split sep key = [key].
Proof.
  unfold mem_char. induction key as [|c key IH]; [reflexivity|].
  simpl. intros Hmem. apply orb_false_elim in Hmem as [Hc Hrest].
  rewrite Ascii.eqb_sym, Hc, (IH Hrest). reflexivity.
Qed.

Lemma walk_keys_app (keys1 keys2 : list string) : ∀ value : json,
  walk_keys value (keys1 ++ keys2) = walk_keys (walk_keys value keys1) keys2.
Proof.
  induction keys1 as [|key keys1 IH]; intros value; [reflexivity|].
  simpl. destruct value; try (symmetry; apply walk_keys_None). apply IH.
Qed.

Lemma get_nested_value_no_dict (data : json) (path : string) :
  is_dict data = false → _get_nested_value data path = JNull.
Proof.
  intros Hdata. unfold _get_nested_value.
  pose proof (split_nonempty "." path) as Hne.
  destruct (split "." path) as [|key keys]; [contradiction|].
  destruct data; try reflexivity; discriminate.
Qed.

(** X9.  Looking up a path made of two paths joined by a dot is looking
    up the first and then, in what was found, the second; a missing
    first part gives [None] for the whole. *)
Theorem get_nested_value_compose (data : json) (a b : string) :
  _get_nested_value data (a ++ "." ++ b)%string
  = _get_nested_value (_get_nested_value data a) b.
Proof.
  unfold _get_nested_value.
  change (a ++ "." ++ b)%string with (a ++ String "." b)%string.
  rewrite split_app. apply walk_keys_app.
Qed.

(** X10.  For a key without a dot the lookup is the mapping's own [get],
    [None] when the key is missing; and in a value that is no mapping (a
    list, a string, a number, [None]) every path, the empty one too,
    gives [None]. *)
Theorem get_nested_value_plain_key (data : json) (path : string) :
  (∀ d : dict, data = JDict d → mem_char "." path = false →
     _get_nested_value data path = default JNull (d !! path))
  ∧ (is_dict data = false → _get_nested_value data path = JNull).
Proof.
  split.
  - intros d -> Hpath. unfold _get_nested_value.
    rewrite (split_no_sep _ _ Hpath). reflexivity.
  - apply get_nested_value_no_dict.
Qed.

Lemma get_nested_value_plain_key_witness :
  _get_nested_value (JDict {[ "next" := JStr "c" ]}) "next" = JStr "c"
  ∧ _get_nested_value (JList [JDict {[ "next" := JStr "c" ]}]) "next"
    = JNull.
Proof.
  split.
  - rewrite (proj1 (get_nested_value_plain_key
                      (JDict {[ "next" := JStr "c" ]}) "next")
               {[ "next" := JStr "c" ]} eq_refl eq_refl).
    vm_compute. reflexivity.
  - apply (proj2 (get_nested_value_plain_key
                    (JList [JDict {[ "next" := JStr "c" ]}]) "next")).
    reflexivity.
Defined.

(** X11.  A response that is a bare list has no cursor: an iteration of
    [paginate_cursor] whose fetch returns a list yields it when it is not
    empty and ends the generator, whatever [cursor_path] is. *)
Theorem cursor_stops_on_list_response {B : Type}
    (serve : B → Request → result Response * B) (config : ConnectorConfig)
    (endpoint cursor_param cursor_path : string) (max_pages : option Z)
    (st : cursor_state) (w : World B) (params : loc) (w1 : World B)
    (records : list json) (w2 : World B) :
  max_pages_reached max_pages (cs_page st) = false →
  cursor_prepare cursor_param st w = (Ok params, w1) →
  fetch serve config endpoint params w1 = (Ok (JList records), w2) →
  ∃ w', paginate_cursor_step serve config endpoint cursor_param cursor_path
          max_pages st w = (Ok Break, w')
    ∧ yielded w' = yielded w
        ++ (if decide (records = []) then [] else [JList records])
    ∧ sent w' = sent w2.
Proof.
  intros Hcut Hprep Hfetch.
  rewrite cursor_step_unfold, Hcut, Hprep, Hfetch, cursor_page_spec.
  rewrite (get_nested_value_no_dict (JList records) cursor_path eq_refl).
  destruct (cursor_prepare_spec cursor_param st w)
    as (params' & w1' & Hprep' & _ & _ & _ & Hy1 & _).
  rewrite Hprep in Hprep'. injection Hprep' as <- <-.
  destruct (fetch_frame _ _ _ _ _ _ _ Hfetch) as (n & _ & _ & Hy2 & _).
  destruct records as [|record records]; simpl.
  - exists w2. rewrite app_nil_r. repeat split. congruence.
  - eexists. split; [reflexivity|]. simpl. rewrite Hy2, Hy1.
    split; reflexivity.
Qed.

Lemma cursor_stops_on_list_response_witness :
  let config := default_config "http://h" in
  let page := JList [JNum 1; JNum 2] in
  let w := init_world 0 [] [ok_json page; ok_json page] ∅ in
  let st := mkCursor JNull 0 None in
  let p := cursor_prepare "cursor" st w in
  let f := fetch serve_script config "/items" 1%positive p.2 in
  ∃ w', paginate_cursor_step serve_script config "/items" "cursor"
          "next_cursor" None st w = (Ok Break, w')
    ∧ yielded w' = [page]
    ∧ sent w' = sent f.2.
Proof.
  intros config page w st p f.
  apply (cursor_stops_on_list_response serve_script config "/items" "cursor"
           "next_cursor" None st w 1%positive p.2 [JNum 1; JNum 2] f.2).
  - reflexivity.
  - vm_compute. reflexivity.
  - vm_compute. reflexivity.
Defined.

(** ** Pages and requests of a whole run *)

Ltac no_page n :=
  exists [], n; rewrite app_nil_r;
  split; [congruence|]; split; [constructor|]; split; [simpl; lia|];
  split; [assumption || lia|]; split; [assumption || lia|];
  split; [let Hx := fresh in intros Hx; try discriminate Hx; repeat split|];
  let st' := fresh in let Hc := fresh in intros st' Hc; discriminate Hc.

Section Run_proofs.
Context {B : Type}.
Variable serve : B → Request → result Response * B.
Variable config : ConnectorConfig.
Variable endpoint : string.
Variable max_pages : option Z.

(** What one iteration adds: at most one page, never a falsy one, and at
    most three requests; nothing at all when the cutoff applies; and the
    page count goes up by one when the loop goes on. *)
Lemma offset_step_summary (limit : Z) (st : offset_state) (w w1 : World B)
    (c : ctl offset_state) :
  paginate_offset_step serve config endpoint limit max_pages st w
  = (Ok c, w1) →
  ∃ ps n, yielded w1 = yielded w ++ ps
    ∧ Forall (λ p, truthy p = true) ps
    ∧ (length ps ≤ 1)%nat
    ∧ length (sent w1) = (length (sent w) + n)%nat
    ∧ (n ≤ 3)%nat
    ∧ (max_pages_reached max_pages (os_page st) = true →
       c = Break ∧ ps = [] ∧ n = 0%nat)
    ∧ ∀ st', c = Continue st' →
        max_pages_reached max_pages (os_page st) = false
        ∧ os_page st' = os_page st + 1
        ∧ length ps = 1%nat.
Proof.
  rewrite offset_step_unfold.
  destruct (max_pages_reached max_pages (os_page st)) eqn:Hcut.
  { intros [= <- <-]. no_page 0%nat. }
  destruct (offset_prepare_spec limit st w)
    as (params & w1' & -> & _ & _ & Hs1 & Hy1 & _).
  destruct (fetch serve config endpoint params w1') as [fetched w2] eqn:Hfetch.
  destruct (fetch_frame _ _ _ _ _ _ _ Hfetch) as (n & Hn & _ & Hy2 & Hs2).
  assert (Hsent : length (sent w2) = (length (sent w) + n)%nat).
  { rewrite Hs2, Hs1, length_app, length_replicate. reflexivity. }
  destruct fetched as [data|e].
  2:{ intros [= <- <-]. no_page n. }
  rewrite offset_page_spec.
  destruct (truthy (_extract_records_from_response data)) eqn:Htruthy.
  2:{ intros [= <- <-]. no_page n. }
  assert (Hyield : ∀ c0, (Ok c0 : result (ctl offset_state),
                          (yield_ (_extract_records_from_response data) w2).2)
                         = (Ok c, w1) →
    (∀ st', c0 = Continue st' → os_page st' = os_page st + 1) →
    ∃ ps n0, yielded w1 = yielded w ++ ps
      ∧ Forall (λ p, truthy p = true) ps
      ∧ (length ps ≤ 1)%nat
      ∧ length (sent w1) = (length (sent w) + n0)%nat
      ∧ (n0 ≤ 3)%nat
      ∧ (false = true → c = Break ∧ ps = [] ∧ n0 = 0%nat)
      ∧ ∀ st', c = Continue st' →
          false = false ∧ os_page st' = os_page st + 1 ∧ length ps = 1%nat).
  { intros c0 [= <- <-] Hpage.
    exists [_extract_records_from_response data], n. simpl.
    rewrite Hy2, Hy1. split; [reflexivity|].
    split; [constructor; [exact Htruthy|constructor]|].
    split; [lia|]. split; [exact Hsent|]. split; [exact Hn|].
    split; [discriminate|]. intros st' Hc. split; [reflexivity|].
    split; [apply Hpage, Hc|reflexivity]. }
  destruct (sized (_extract_records_from_response data)) as [len|].
  - case_bool_decide; intros Hret; apply (Hyield _ Hret).
    + discriminate.
    + intros st' [= <-]. reflexivity.
  - intros Hret. apply (Hyield _ Hret). discriminate.
Qed.

Lemma cursor_step_summary (cursor_param cursor_path : string)
    (st : cursor_state) (w w1 : World B) (c : ctl cursor_state) :
  paginate_cursor_step serve config endpoint cursor_param cursor_path
    max_pages st w = (Ok c, w1) →
  ∃ ps n, yielded w1 = yielded w ++ ps
    ∧ Forall (λ p, truthy p = true) ps
    ∧ (length ps ≤ 1)%nat
    ∧ length (sent w1) = (length (sent w) + n)%nat
    ∧ (n ≤ 3)%nat
    ∧ (max_pages_reached max_pages (cs_page st) = true →
       c = Break ∧ ps = [] ∧ n = 0%nat)
    ∧ ∀ st', c = Continue st' →
        max_pages_reached max_pages (cs_page st) = false
        ∧ cs_page st' = cs_page st + 1
        ∧ length ps = 1%nat.
Proof.
  rewrite cursor_step_unfold.
  destruct (max_pages_reached max_pages (cs_page st)) eqn:Hcut.
  { intros [= <- <-]. no_page 0%nat. }
  destruct (cursor_prepare_spec cursor_param st w)
    as (params & w1' & -> & _ & _ & Hs1 & Hy1 & _).
  destruct (fetch serve config endpoint params w1') as [fetched w2] eqn:Hfetch.
  destruct (fetch_frame _ _ _ _ _ _ _ Hfetch) as (n & Hn & _ & Hy2 & Hs2).
  assert (Hsent : length (sent w2) = (length (sent w) + n)%nat).
  { rewrite Hs2, Hs1, length_app, length_replicate. reflexivity. }
  destruct fetched as [data|e].
  2:{ intros [= <- <-]. no_page n. }
  rewrite cursor_page_spec.
  destruct (truthy (_extract_records_from_response data)) eqn:Htruthy.
  2:{ intros [= <- <-]. no_page n. }
  destruct (truthy (_get_nested_value data cursor_path));
    intros [= <- <-];
    exists [_extract_records_from_response data], n; simpl;
    rewrite Hy2, Hy1; (split; [reflexivity|]);
    (split; [constructor; [exact Htruthy|constructor]|]);
    (split; [lia|]); (split; [exact Hsent|]); (split; [exact Hn|]);
    (split; [discriminate|]); intros st' [= <-]; repeat split.
Qed.

(** The bound [max_pages] leaves: the pages still allowed at [page]. *)
Lemma cutoff_room (m page : Z) :
  m ≠ 0 →
  (max_pages_reached (Some m) page = true → Z.to_nat (m - page) = 0%nat)
  ∧ (max_pages_reached (Some m) page = false →
     Z.to_nat (m - page) = S (Z.to_nat (m - (page + 1)))).
Proof.
  intros Hm. unfold max_pages_reached.
  destruct (Z.eqb_spec m 0) as [|_]; [contradiction|]. simpl.
  case_bool_decide; split; intros; try discriminate; lia.
Qed.

Lemma offset_loop_summary (limit : Z) (fuel : nat) :
  ∀ (st : offset_state) (w w' : World B) (done : bool),
    paginate_offset_loop serve config fuel endpoint limit max_pages st w
    = (Ok done, w') →
    ∃ pages n, yielded w' = yielded w ++ pages
      ∧ Forall (λ p, truthy p = true) pages
      ∧ (length pages ≤ fuel)%nat
      ∧ length (sent w') = (length (sent w) + n)%nat
      ∧ (n ≤ 3 * fuel)%nat
      ∧ ∀ m, max_pages = Some m → m ≠ 0 →
          (length pages ≤ Z.to_nat (m - os_page st))%nat
          ∧ (n ≤ 3 * Z.to_nat (m - os_page st))%nat
          ∧ ((Z.to_nat (m - os_page st) < fuel)%nat → done = true).
Proof.
  induction fuel as [|fuel IH]; intros st w w' done; simpl.
  { intros [= <- <-]. exists [], 0%nat. rewrite app_nil_r.
    split; [reflexivity|]. split; [constructor|]. split; [simpl; lia|].
    split; [lia|]. split; [lia|]. intros m _ _. simpl. lia. }
  unfold mbind, M_bind, bind.
  destruct (offset_step_returns serve config endpoint limit max_pages st w)
    as (c & w1 & Hstep).
  rewrite Hstep.
  destruct (offset_step_summary limit st w w1 c Hstep)
    as (ps & n1 & Hy1 & Ht1 & Hl1 & Hs1 & Hn1 & Hcut & Hcont).
  destruct c as [|st'].
  - intros [= <- <-]. exists ps, n1.
    split; [exact Hy1|]. split; [exact Ht1|]. split; [lia|].
    split; [exact Hs1|]. split; [lia|].
    intros m -> Hm. destruct (cutoff_room m (os_page st) Hm) as [Hfull Hroom].
    destruct (max_pages_reached (Some m) (os_page st)).
    + destruct (Hcut eq_refl) as (_ & -> & ->). simpl. repeat split; lia.
    + specialize (Hroom eq_refl). repeat split; lia.
  - destruct (Hcont st' eq_refl) as (Hfalse & Hpage & Hone).
    intros Hrest. apply IH in Hrest
      as (pages & n2 & Hy2 & Ht2 & Hl2 & Hs2 & Hn2 & Hmax).
    exists (ps ++ pages), (n1 + n2)%nat.
    split; [rewrite Hy2, Hy1, app_assoc; reflexivity|].
    split; [apply Forall_app; split; assumption|].
    split; [rewrite length_app; lia|]. split; [lia|]. split; [lia|].
    intros m Hmp Hm. destruct (Hmax m Hmp Hm) as (Hb1 & Hb2 & Hb3).
    subst max_pages.
    destruct (cutoff_room m (os_page st) Hm) as [_ Hroom].
    specialize (Hroom Hfalse). rewrite Hpage in Hb1, Hb2, Hb3.
    rewrite length_app. repeat split; try lia. intros Hlt. apply Hb3. lia.
Qed.

Lemma cursor_loop_summary (cursor_param cursor_path : string) (fuel : nat) :
  ∀ (st : cursor_state) (w w' : World B) (done : bool),
    paginate_cursor_loop serve config fuel endpoint cursor_param cursor_path
      max_pages st w = (Ok done, w') →
    ∃ pages n, yielded w' = yielded w ++ pages
      ∧ Forall (λ p, truthy p = true) pages
      ∧ (length pages ≤ fuel)%nat
      ∧ length (sent w') = (length (sent w) + n)%nat
      ∧ (n ≤ 3 * fuel)%nat
      ∧ ∀ m, max_pages = Some m → m ≠ 0 →
          (length pages ≤ Z.to_nat (m - cs_page st))%nat
          ∧ (n ≤ 3 * Z.to_nat (m - cs_page st))%nat
          ∧ ((Z.to_nat (m - cs_page st) < fuel)%nat → done = true).
Proof.
  induction fuel as [|fuel IH]; intros st w w' done; simpl.
  { intros [= <- <-]. exists [], 0%nat. rewrite app_nil_r.
    split; [reflexivity|]. split; [constructor|]. split; [simpl; lia|].
    split; [lia|]. split; [lia|]. intros m _ _. simpl. lia. }
  unfold mbind, M_bind, bind.
  destruct (cursor_step_returns serve config endpoint cursor_param
              cursor_path max_pages st w) as (c & w1 & Hstep).
  rewrite Hstep.
  destruct (cursor_step_summary cursor_param cursor_path st w w1 c Hstep)
    as (ps & n1 & Hy1 & Ht1 & Hl1 & Hs1 & Hn1 & Hcut & Hcont).
  destruct c as [|st'].
  - intros [= <- <-]. exists ps, n1.
    split; [exact Hy1|]. split; [exact Ht1|]. split; [lia|].
    split; [exact Hs1|]. split; [lia|].
    intros m -> Hm. destruct (cutoff_room m (cs_page st) Hm) as [Hfull Hroom].
    destruct (max_pages_reached (Some m) (cs_page st)).
    + destruct (Hcut eq_refl) as (_ & -> & ->). simpl. repeat split; lia.
    + specialize (Hroom eq_refl). repeat split; lia.
  - destruct (Hcont st' eq_refl) as (Hfalse & Hpage & Hone).
    intros Hrest. apply IH in Hrest
      as (pages & n2 & Hy2 & Ht2 & Hl2 & Hs2 & Hn2 & Hmax).
    exists (ps ++ pages), (n1 + n2)%nat.
    split; [rewrite Hy2, Hy1, app_assoc; reflexivity|].
    split; [apply Forall_app; split; assumption|].
    split; [rewrite length_app; lia|]. split; [lia|]. split; [lia|].
    intros m Hmp Hm. destruct (Hmax m Hmp Hm) as (Hb1 & Hb2 & Hb3).
    subst max_pages.
    destruct (cutoff_room m (cs_page st) Hm) as [_ Hroom].
    specialize (Hroom Hfalse). rewrite Hpage in Hb1, Hb2, Hb3.
    rewrite length_app. repeat split; try lia. intros Hlt. apply Hb3. lia.
Qed.
End Run_proofs.

(** X12.  Neither paginator ever yields an empty (falsy) page, and a run
    of so many iterations yields at most that many pages and sends at
    most three requests for each, on every service and whatever
    [max_pages] is. *)
Theorem paginators_yield_nonempty_pages {B : Type}
    (serve : B → Request → result Response * B) (config : ConnectorConfig)
    (endpoint : string) (max_pages : option Z) (kwargs : option loc)
    (fuel : nat) (w : World B) :
  (∀ limit, ∃ done w' pages n,
     paginate_offset serve config fuel endpoint limit max_pages kwargs w
     = (Ok done, w')
     ∧ yielded w' = yielded w ++ pages
     ∧ Forall (λ p, truthy p = true) pages
     ∧ (length pages ≤ fuel)%nat
     ∧ length (sent w') = (length (sent w) + n)%nat
     ∧ (n ≤ 3 * fuel)%nat)
  ∧ (∀ cursor_param cursor_path, ∃ done w' pages n,
       paginate_cursor serve config fuel endpoint cursor_param cursor_path
         max_pages kwargs w = (Ok done, w')
       ∧ yielded w' = yielded w ++ pages
       ∧ Forall (λ p, truthy p = true) pages
       ∧ (length pages ≤ fuel)%nat
       ∧ length (sent w') = (length (sent w) + n)%nat
       ∧ (n ≤ 3 * fuel)%nat).
Proof.
  split.
  - intros limit. unfold paginate_offset.
    destruct (offset_loop_returns serve config fuel endpoint limit
                max_pages (mkOffset 0 0 kwargs) w) as (done & w' & Hrun).
    destruct (offset_loop_summary serve config endpoint max_pages limit
                fuel _ _ _ _ Hrun)
      as (pages & n & Hy & Ht & Hl & Hs & Hn & _).
    exists done, w', pages, n. repeat split; assumption.
  - intros cursor_param cursor_path. unfold paginate_cursor.
    destruct (cursor_loop_returns serve config fuel endpoint cursor_param
                cursor_path max_pages (mkCursor JNull 0 kwargs) w)
      as (done & w' & Hrun).
    destruct (cursor_loop_summary serve config endpoint max_pages
                cursor_param cursor_path fuel _ _ _ _ Hrun)
      as (pages & n & Hy & Ht & Hl & Hs & Hn & _).
    exists done, w', pages, n. repeat split; assumption.
Qed.

(** X13.  A non-zero [max_pages = m] bounds both paginators on every
    service: at most [m] pages are yielded and at most [3 m] requests
    sent; the generator is exhausted after at most [m + 1] iterations; and
    a negative [m] gives no page and no request at all. *)
Theorem max_pages_bounds_run {B : Type}
    (serve : B → Request → result Response * B) (config : ConnectorConfig)
    (endpoint : string) (m : Z) (kwargs : option loc) (fuel : nat)
    (w : World B) :
  m ≠ 0 →
  (∀ limit, ∃ done w' pages n,
     paginate_offset serve config fuel endpoint limit (Some m) kwargs w
     = (Ok done, w')
     ∧ yielded w' = yielded w ++ pages
     ∧ length (sent w') = (length (sent w) + n)%nat
     ∧ (length pages ≤ Z.to_nat m)%nat
     ∧ (n ≤ 3 * Z.to_nat m)%nat
     ∧ ((Z.to_nat m < fuel)%nat → done = true))
  ∧ (∀ cursor_param cursor_path, ∃ done w' pages n,
       paginate_cursor serve config fuel endpoint cursor_param cursor_path
         (Some m) kwargs w = (Ok done, w')
       ∧ yielded w' = yielded w ++ pages
       ∧ length (sent w') = (length (sent w) + n)%nat
       ∧ (length pages ≤ Z.to_nat m)%nat
       ∧ (n ≤ 3 * Z.to_nat m)%nat
       ∧ ((Z.to_nat m < fuel)%nat → done = true)).
Proof.
  intros Hm. split.
  - intros limit. unfold paginate_offset.
    destruct (offset_loop_returns serve config fuel endpoint limit
                (Some m) (mkOffset 0 0 kwargs) w) as (done & w' & Hrun).
    destruct (offset_loop_summary serve config endpoint (Some m) limit
                fuel _ _ _ _ Hrun)
      as (pages & n & Hy & _ & _ & Hs & _ & Hmax).
    destruct (Hmax m eq_refl Hm) as (Hb1 & Hb2 & Hb3). simpl in *.
    rewrite Z.sub_0_r in Hb1, Hb2, Hb3.
    exists done, w', pages, n. repeat split; assumption.
  - intros cursor_param cursor_path. unfold paginate_cursor.
    destruct (cursor_loop_returns serve config fuel endpoint cursor_param
                cursor_path (Some m) (mkCursor JNull 0 kwargs) w)
      as (done & w' & Hrun).
    destruct (cursor_loop_summary serve config endpoint (Some m)
                cursor_param cursor_path fuel _ _ _ _ Hrun)
      as (pages & n & Hy & _ & _ & Hs & _ & Hmax).
    destruct (Hmax m eq_refl Hm) as (Hb1 & Hb2 & Hb3). simpl in *.
    rewrite Z.sub_0_r in Hb1, Hb2, Hb3.
    exists done, w', pages, n. repeat split; assumption.
Qed.

(** Ten records served two at a time, [max_pages = 3]. *)
Lemma max_pages_bounds_run_witness :
  let config := default_config "http://h" in
  let w := init_world 0 [] tt ∅ in
  ∃ done w' pages n,
    paginate_offset (serve_slice (records_from 1 10)) config 9 "/items" 2
      (Some 3) None w = (Ok done, w')
    ∧ yielded w' = yielded w ++ pages
    ∧ length (sent w') = (length (sent w) + n)%nat
    ∧ (length pages ≤ 3)%nat
    ∧ (n ≤ 9)%nat
    ∧ ((3 < 9)%nat → done = true).
Proof.
  intros config w.
  apply (proj1 (max_pages_bounds_run (serve_slice (records_from 1 10))
                  config "/items" 3 None 9 w ltac:(lia)) 2).
Defined.

Example negative_max_pages :
  let config := default_config "http://h" in
  let r := paginate_offset (serve_slice (records_from 1 10)) config 9
             "/items" 2 (Some (-1)) None (init_world 0 [] tt ∅) in
  r.1 = Ok true ∧ yielded r.2 = [] ∧ sent r.2 = [].
Proof. vm_compute. repeat split. Qed.

(** ** Paging through a service that honours [limit] and [offset] *)

Section Slices.
Variable config : ConnectorConfig.
Variable endpoint : string.
Variable items : list json.
Variable limit : Z.
Hypothesis Hquota : 1 ≤ rate_limit_calls config.
Hypothesis Hlimit : 0 < limit.

Lemma serve_slice_answer (p : dict) (offset : Z) (b : unit) (rq : Request) :
  req_params rq = Some (<["offset" := JNum offset]>
                          (<["limit" := JNum limit]> p)) →
  serve_slice items b rq
  = (ok_json (JDict {[ "data" :=
       JList (take (Z.to_nat limit) (drop (Z.to_nat offset) items)) ]}), tt).
Proof.
  intros Hp. unfold serve_slice. rewrite Hp.
  rewrite lookup_insert_ne by discriminate.
  rewrite !lookup_insert_eq. reflexivity.
Qed.

(** An iteration at offset [o]: the slice of [limit] records from [o] on
    is fetched with one request. *)
Lemma offset_step_slice (st : offset_state) (w : World unit) (o : nat) :
  os_offset st = Z.of_nat o →
  let page := take (Z.to_nat limit) (drop o items) in
  ∃ params w',
    paginate_offset_step (serve_slice items) config endpoint limit None st w
    = (Ok (if decide (page = []) then Break
           else if bool_decide (Z.of_nat (length page) < limit) then Break
           else Continue (mkOffset (os_offset st + limit) (os_page st + 1)
                            (Some params))), w')
    ∧ yielded w' = yielded w
        ++ (if decide (page = []) then [] else [JList page]).
Proof.
  intros Ho page. rewrite offset_step_unfold. simpl.
  destruct (offset_prepare_spec limit st w)
    as (params & w1 & -> & Hh1 & _ & _ & Hy1 & _).
  unfold fetch, deref. unfold_monad.
  edestruct (get_first_attempt (serve_slice items) config endpoint
               (Some (default ∅ (heap w1 !! params))) w1
               (mkResponse 200 (Some (JDict {[ "data" := JList page ]})))
               tt (JDict {[ "data" := JList page ]}) Hquota)
    as (w2 & -> & (_ & Hy2 & _) & _).
  { rewrite Hh1, lookup_insert_eq. simpl.
    rewrite (serve_slice_answer _ (os_offset st)) by reflexivity.
    unfold page. rewrite Ho, Nat2Z.id. reflexivity. }
  { simpl. lia. }
  { reflexivity. }
  rewrite offset_page_spec.
  assert (Hrec : _extract_records_from_response
                   (JDict {[ "data" := JList page ]}) = JList page).
  { simpl. rewrite lookup_singleton_eq. reflexivity. }
  rewrite Hrec. exists params.
  destruct page as [|record page'] eqn:Hpage.
  - exists w2. simpl. rewrite app_nil_r. split; [reflexivity|congruence].
  - rewrite decide_False by discriminate. simpl.
    destruct (bool_decide _); (eexists; split; [reflexivity|]);
      simpl; congruence.
Qed.

Lemma offset_loop_slice (fuel : nat) : ∀ (st : offset_state)
    (w : World unit) (o : nat),
  os_offset st = Z.of_nat o →
  (length items - o < fuel)%nat →
  ∃ w' pages,
    paginate_offset_loop (serve_slice items) config fuel endpoint limit None
      st w = (Ok true, w')
    ∧ yielded w' = yielded w ++ pages
    ∧ all_records pages = drop o items
    ∧ Forall (λ p, ∃ l, p = JList l ∧ 0 < Z.of_nat (length l) ≤ limit) pages.
Proof.
  induction fuel as [|fuel IH]; intros st w o Ho Hfuel; [lia|].
  simpl. unfold_monad.
  destruct (offset_step_slice st w o Ho) as (params & w1 & -> & Hy1).
  set (page := take (Z.to_nat limit) (drop o items)) in *.
  assert (Hlen : length page = Nat.min (Z.to_nat limit) (length items - o)).
  { unfold page. rewrite length_take, length_drop. reflexivity. }
  destruct (decide (page = [])) as [Hempty|Hsome].
  - exists w1, []. rewrite app_nil_r in *.
    split; [reflexivity|]. split; [exact Hy1|]. split; [|constructor].
    rewrite Hempty in Hlen. simpl in Hlen.
    symmetry. apply drop_ge. lia.
  - assert (Hpos : (0 < length page)%nat).
    { destruct page; [contradiction|simpl; lia]. }
    assert (Hpage : ∃ l, JList page = JList l
                         ∧ 0 < Z.of_nat (length l) ≤ limit).
    { exists page. split; [reflexivity|]. lia. }
    case_bool_decide as Hshort.
    + exists w1, [JList page]. split; [reflexivity|]. split; [exact Hy1|].
      split; [|constructor; [exact Hpage|constructor]].
      unfold all_records. simpl. rewrite app_nil_r.
      unfold page. apply take_ge. rewrite length_drop. lia.
    + destruct (IH (mkOffset (os_offset st + limit) (os_page st + 1)
                      (Some params)) w1 (o + Z.to_nat limit)%nat)
        as (w2 & pages & -> & Hy2 & Hall & Hshape).
      { simpl. rewrite Ho. lia. }
      { lia. }
      exists w2, (JList page :: pages). split; [reflexivity|].
      split; [rewrite Hy2, Hy1, <- app_assoc; reflexivity|].
      split; [|constructor; assumption].
      unfold all_records in *. simpl. rewrite Hall.
      unfold page. rewrite <- drop_drop. apply take_drop.
Qed.
End Slices.

(** X14.  Against a service that answers [limit] and [offset] with the
    matching slice of a fixed list of records under ["data"], the offset
    paginator (positive [limit], no [max_pages], quota of at least one
    call) ends by itself and yields every record exactly once and in
    order, in pages of at most [limit] records. *)
Theorem offset_pagination_complete (config : ConnectorConfig)
    (endpoint : string) (items : list json) (limit : Z)
    (kwargs : option loc) (w : World unit) (fuel : nat) :
  1 ≤ rate_limit_calls config →
  0 < limit →
  (length items < fuel)%nat →
  ∃ w' pages,
    paginate_offset (serve_slice items) config fuel endpoint limit None
      kwargs w = (Ok true, w')
    ∧ yielded w' = yielded w ++ pages
    ∧ all_records pages = items
    ∧ Forall (λ p, ∃ l, p = JList l ∧ 0 < Z.of_nat (length l) ≤ limit) pages.
Proof.
  intros Hq Hlimit Hfuel. unfold paginate_offset.
  apply (offset_loop_slice config endpoint items limit Hq Hlimit fuel
           (mkOffset 0 0 kwargs) w 0%nat); [reflexivity|lia].
Qed.

Lemma offset_pagination_complete_witness :
  let config := default_config "http://h" in
  let items := records_from 1 7 in
  ∃ w' pages,
    paginate_offset (serve_slice items) config 8 "/items" 3 None None
      (init_world 0 [] tt ∅) = (Ok true, w')
    ∧ yielded w' = [] ++ pages
    ∧ all_records pages = items
    ∧ Forall (λ p, ∃ l, p = JList l ∧ 0 < Z.of_nat (length l) ≤ 3) pages.
Proof.
  intros config items.
  apply (offset_pagination_complete config "/items" items 3 None
           (init_world 0 [] tt ∅) 8); simpl; lia.
Defined.

(** ** A service that never runs dry *)

Section Same_answer.
Variable config : ConnectorConfig.
Variable endpoint : string.
Variable data : json.
Hypothesis Hquota : 1 ≤ rate_limit_calls config.



End Same_answer.



(** ** Using one [params] mapping for two paginations *)



(** ** A service that fails in the middle of a pagination *)



